(** * InvokeAI image invocations ([invokeai/app/invocations/image.py])

    A shallow embedding of the image nodes of InvokeAI and of the parts of
    Pillow, numpy and Python they call, followed by the properties of the
    nodes that the specification states.

    Layout:
    - [Py]      : Python exceptions, the result monad, [int()] and float
                  arithmetic on binary64;
    - [numpy]   : float32 element operations and the cast to [uint8];
    - [PIL]     : images with their mode, size and pixel rows; [Image.new],
                  [paste], [split], [ImageOps.invert], [ImageChops.multiply],
                  [getchannel], [convert], [filter], [resize], [fromarray];
    - the image service of the invocation context;
    - one module per invocation class, with its fields and its [invoke];
    - the theorems. *)

From Stdlib Require Import ZArith Lia SpecFloat.
From stdpp Require Import base option list list_numbers gmap strings pretty.

Local Open Scope Z_scope.

(** ** Python *)

Module Py.

(** The exceptions that the modelled code paths can raise.  The message of
    a Pillow error is kept, it tells the checks of the library apart. *)
Inductive exn : Type :=
| ValueError (msg : string)
| OSError (msg : string)
| TypeError (msg : string)
| OverflowError (msg : string)
| ZeroDivisionError (msg : string)
| KeyError (key : string)
| ImageFileNotFoundException (name : string)
| CapabilityFailure (msg : string).

Inductive result (A : Type) : Type :=
| Ok (a : A)
| Raise (e : exn).
Global Arguments Ok {A} a.
Global Arguments Raise {A} e.

Definition bind {A B : Type} (f : A → result B) (m : result A) : result B :=
  match m with
  | Ok a => f a
  | Raise e => Raise e
  end.

Global Instance result_ret : MRet result := @Ok.
Global Instance result_bind : MBind result := @bind.

Definition is_ok {A : Type} (m : result A) : bool :=
  match m with Ok _ => true | Raise _ => false end.

(** Python's [float] is IEEE-754 binary64. *)
Definition float : Type := spec_float.

Global Instance spec_float_eq_dec : EqDecision spec_float.
Proof. solve_decision. Defined.

(** Equality of two floats as data (not the IEEE comparison). *)
Definition float_eqb (x y : spec_float) : bool := bool_decide (x = y).
Definition prec : Z := 53.
Definition emax : Z := 1024.

(** [float(n)] for an [int]: the nearest binary64, to even on ties;
    beyond the largest finite double Python raises [OverflowError]. *)
Definition float_of_int (n : Z) : result float :=
  match binary_normalize prec emax n 0 false with
  | S754_infinity _ => Raise (OverflowError "int too large to convert to float")
  | x => Ok x
  end.

(** [n * f] with [n : int] and [f : float]: [float.__rmul__] converts the
    integer and multiplies in binary64. *)
Definition int_mul_float (n : Z) (f : float) : result float :=
  x ← float_of_int n; Ok (SFmul prec emax x f).

(** [int(f)]: truncation toward zero; infinities and NaN raise. *)
Definition int_of_float (f : float) : result Z :=
  match f with
  | S754_zero _ => Ok 0
  | S754_finite s m e =>
      let a := match e with
               | Zneg p => Z.shiftr (Zpos m) (Zpos p)
               | _ => Z.shiftl (Zpos m) e
               end in
      Ok (if s then - a else a)
  | S754_infinity _ => Raise (OverflowError "cannot convert float infinity to integer")
  | S754_nan => Raise (ValueError "cannot convert float NaN to integer")
  end.

(** The double 1.0. *)
Definition one : float := S754_finite false 4503599627370496 (-52).

(** [f > 0], the [gt=0] constraint of a pydantic float field. *)
Definition float_gt0 (f : float) : bool :=
  SFltb (S754_zero false) f.

End Py.

(** ** numpy on float32 elements *)

Module numpy.

Definition float32 : Type := spec_float.
Definition prec : Z := 24.
Definition emax : Z := 128.

(** An integer converted to float32 (an element of an 8-bit or 32-bit
    integer image under [dtype=numpy.float32], or a Python [int] operand,
    which takes the dtype of the array). *)
Definition float32_of_int (n : Z) : float32 :=
  binary_normalize prec emax n 0 false.

(** A Python [float] operand, rounded to the array's float32. *)
Definition float32_of_float (f : Py.float) : float32 :=
  match f with
  | S754_finite s m e => binary_round prec emax s m e
  | x => x
  end.

(** The float32 whose IEEE-754 bit pattern is [bits] (the element of a
    mode "F" image). *)
Definition float32_of_bits (bits : Z) : float32 :=
  let s := Z.testbit bits 31 in
  let e := Z.land (Z.shiftr bits 23) 255 in
  let f := Z.land bits 8388607 in
  if e =? 0 then
    match f with
    | Zpos m => S754_finite s m (-149)
    | _ => S754_zero s
    end
  else if e =? 255 then
    (if f =? 0 then S754_infinity s else S754_nan)
  else
    match f + 8388608 with
    | Zpos m => S754_finite s m (e - 150)
    | _ => S754_nan
    end.

Definition add : float32 → float32 → float32 := SFadd prec emax.
Definition subtract : float32 → float32 → float32 := SFsub prec emax.
Definition multiply : float32 → float32 → float32 := SFmul prec emax.
Definition divide : float32 → float32 → float32 := SFdiv prec emax.

Definition isnan (x : float32) : bool :=
  match x with S754_nan => true | _ => false end.

(** [numpy.maximum]: [(a >= b || isnan(a)) ? a : b]. *)
Definition maximum (a b : float32) : float32 :=
  if SFleb b a || isnan a then a else b.

(** [numpy.minimum]: [(a <= b || isnan(a)) ? a : b]. *)
Definition minimum (a b : float32) : float32 :=
  if SFleb a b || isnan a then a else b.

(** Truncation of a finite float toward zero; [None] for infinities and
    NaN. *)
Definition trunc (x : float32) : option Z :=
  match x with
  | S754_zero _ => Some 0
  | S754_finite s m e =>
      let a := match e with
               | Zneg p => Z.shiftr (Zpos m) (Zpos p)
               | _ => Z.shiftl (Zpos m) e
               end in
      Some (if s then - a else a)
  | _ => None
  end.

(** [numpy.uint8(x)] for a float32 element: the C conversion to
    [unsigned char].  When the truncated value is in [0, 255] the result
    is that value.  Outside that range C leaves the result undefined;
    the model takes what the x86-64 builds of numpy do: the value is
    converted to a 32-bit integer ([cvttss2si], which gives the pattern
    0x80000000 for NaN, infinities and values beyond 32 bits) and the
    low byte is kept.  Nothing is clamped. *)
Definition uint8 (x : float32) : Z :=
  match trunc x with
  | Some z =>
      if bool_decide (- 2147483648 ≤ z ≤ 2147483647) then z `mod` 256 else 0
  | None => 0
  end.

(** The 8-bit saturation that the specification words for Lerp describe:
    the value clamped into [0, 255] (it is not in the source). *)
Definition saturate_uint8 (x : float32) : Z :=
  match x with
  | S754_nan => 0
  | S754_infinity s => if s then 0 else 255
  | _ => Z.max 0 (Z.min 255 (default 0 (trunc x)))
  end.

(** Arrays of rank 2 or 3 as the image code builds them: [shape] is
    [(h, w)] or [(h, w, c)], [items] holds [h] rows of [w] pixels, each
    the list of its [c] elements (one element for rank 2). *)
Record ndarray (A : Type) : Type := {
  shape : list Z;
  items : list (list (list A));
}.
Global Arguments shape {A} _.
Global Arguments items {A} _.

(** An elementwise operation (broadcast of a scalar operand, or a
    conversion of the element type). *)
Definition map {A B : Type} (f : A → B) (a : ndarray A) : ndarray B :=
  {| shape := shape a; items := List.map (List.map (List.map f)) (items a) |}.

(** The element types of the array interface of an image. *)
Inductive typestr : Type := u1 | i4 | f4.

(** The 32-bit pattern [v] read as a signed integer. *)
Definition signed32 (v : Z) : Z :=
  if v <? 2147483648 then v else v - 4294967296.

(** [numpy.asarray(image, dtype=numpy.float32)] on the array interface of
    an image: every element converted to float32. *)
Definition asarray (a : typestr * ndarray Z) : ndarray float32 :=
  map (match a.1 with
       | u1 => float32_of_int
       | i4 => λ v, float32_of_int (signed32 v)
       | f4 => float32_of_bits
       end) a.2.



End numpy.

(** ** Pillow *)

Module PIL.
Import Py.

Module Image.

(** The image modes that the nodes name ([IMAGE_MODES]) and "LA".  All
    have 8-bit bands except "I" (one 32-bit integer band) and "F" (one
    32-bit float band). *)
Inductive Mode : Type :=
| L | LA | RGB | RGBA | CMYK | YCbCr | LAB | HSV | I | F.

Global Instance Mode_eq_dec : EqDecision Mode.
Proof. solve_decision. Defined.

(** [Image.getbands()] *)
Definition getbands (m : Mode) : list string :=
  match m with
  | L => ["L"]
  | LA => ["L"; "A"]
  | RGB => ["R"; "G"; "B"]
  | RGBA => ["R"; "G"; "B"; "A"]
  | CMYK => ["C"; "M"; "Y"; "K"]
  | YCbCr => ["Y"; "Cb"; "Cr"]
  | LAB => ["L"; "A"; "B"]
  | HSV => ["H"; "S"; "V"]
  | I => ["I"]
  | F => ["F"]
  end.

Definition bands (m : Mode) : nat := length (getbands m).

(** [IMAGING_TYPE_UINT8]: the bands are bytes. *)
Definition is_uint8 (m : Mode) : bool :=
  match m with I | F => false | _ => true end.

(** Bytes per stored pixel. *)
Definition pixelsize (m : Mode) : Z :=
  match m with L => 1 | _ => 4 end.

(** A pixel is the list of its band samples.  A sample of an 8-bit
    band is its value in [0, 255]; a sample of "I" or "F" is the 32-bit
    pattern stored for it. *)
Definition Pixel : Type := list Z.

Record t : Type := {
  mode : Mode;
  width : Z;
  height : Z;
  rows : list (list Pixel);
}.

Definition size (im : t) : Z * Z := (width im, height im).

(** The pixel at column [x] of row [y], if there is one. *)
Definition pixel_at (rs : list (list Pixel)) (x y : Z) : option Pixel :=
  if bool_decide (0 ≤ x ∧ 0 ≤ y) then
    r ← rs !! Z.to_nat y; r !! Z.to_nat x
  else None.

(** The rows of a [w] by [h] buffer whose pixel at [(x, y)] is
    [f x y]: what a loop over [y] and [x] that writes every pixel once
    leaves in the buffer. *)
Definition tabulate (w h : Z) (f : Z → Z → Pixel) : list (list Pixel) :=
  (λ y, (λ x, f x y) <$> seqZ 0 w) <$> seqZ 0 h.

(** The same operation on every pixel of a buffer. *)
Definition map_pixels (f : Pixel → Pixel) (rs : list (list Pixel))
  : list (list Pixel) :=
  List.map (List.map f) rs.

Definition sample_ok (m : Mode) (v : Z) : bool :=
  (0 <=? v) && (if is_uint8 m then v <=? 255 else v <? 4294967296).

(** A well-formed image: [height] rows of [width] pixels, each with one
    sample per band, each sample in the range of its band. *)
Definition valid (im : t) : bool :=
  (0 <=? width im) && (0 <=? height im)
  && (Z.of_nat (length (rows im)) =? height im)
  && forallb (λ r,
        (Z.of_nat (length r) =? width im)
        && forallb (λ p, (length p =? bands (mode im))%nat
                         && forallb (sample_ok (mode im)) p) r)
       (rows im).

(** [_check_size] then [core.fill]: [Image.new(mode, size, color)]. *)
Definition new (m : Mode) (sz : Z * Z) (color : Pixel) : result t :=
  let '(w, h) := sz in
  if (w <? 0) || (h <? 0) then
    Raise (ValueError "Width and height must be >= 0")
  else
    Ok {| mode := m; width := w; height := h;
          rows := tabulate w h (λ _ _, color) |}.

(** The pixel kernels of the library that the nodes use as black boxes:
    the table of mode converters ([None] where Pillow has none), the
    blur filters ([None] where the filter rejects the image) and the
    resampling filters. *)
Inductive BlurKind : Type := GaussianBlur | BoxBlur.

Inductive Resampling : Type :=
| NEAREST | BOX | BILINEAR | HAMMING | BICUBIC | LANCZOS.

Class Codec : Type := {
  ImagingConvert : Mode → Mode → option (Pixel → Pixel);
  ImagingBlur : BlurKind → Py.float → t → option (Z → Z → Pixel);
  ImagingResample : Resampling → t → Z → Z → Z → Z → Pixel;
}.

(** [Image.convert(mode)] *)
Definition convert {codec : Codec} (im : t) (m : Mode) : result t :=
  if decide (m = mode im) then Ok im
  else
    match ImagingConvert (mode im) m with
    | Some f =>
        Ok {| mode := m; width := width im; height := height im;
              rows := map_pixels f (rows im) |}
    | None => Raise (ValueError "conversion not supported")
    end.

(** [Image.filter(blur)] *)
Definition filter {codec : Codec} (im : t) (kind : BlurKind) (radius : Py.float)
  : result t :=
  match ImagingBlur kind radius im with
  | Some f =>
      Ok {| mode := mode im; width := width im; height := height im;
            rows := tabulate (width im) (height im) f |}
  | None => Raise (ValueError "image has wrong mode")
  end.

(** [Image.resize(size, resample)]: an image that already has the
    size is copied; otherwise [_resize] of [_imaging.c] rejects a size
    below 1 ([if (xsize < 1 || ysize < 1)], a [ValueError]) before any
    resampling. *)
Definition resize {codec : Codec} (im : t) (sz : Z * Z) (resample : Resampling)
  : result t :=
  let '(xsize, ysize) := sz in
  if (width im =? xsize) && (height im =? ysize) then Ok im
  else if (xsize <? 1) || (ysize <? 1) then
    Raise (ValueError "height and width must be > 0")
  else
    Ok {| mode := mode im; width := xsize; height := ysize;
          rows := tabulate xsize ysize
                    (ImagingResample resample im xsize ysize) |}.

(** One band as a mode "L" image ([ImagingGetBand]). *)
Definition getband (im : t) (k : nat) : t :=
  {| mode := L; width := width im; height := height im;
     rows := map_pixels (λ p, [default 0 (p !! k)]) (rows im) |}.

(** [Image.split()] *)
Definition split (im : t) : list t :=
  if (bands (mode im) =? 1)%nat then [im]
  else getband im <$> seq 0 (bands (mode im)).

(** The index of a band name, [tuple.index]. *)
Fixpoint index (name : string) (l : list string) : option nat :=
  match l with
  | [] => None
  | b :: l' => if String.eqb b name then Some 0%nat
               else S <$> index name l'
  end.

(** [Image.getchannel(channel)] *)
Definition getchannel (im : t) (channel : string) : result t :=
  match index channel (getbands (mode im)) with
  | None => Raise (ValueError "The image has no channel")
  | Some k =>
      if is_uint8 (mode im) then Ok (getband im k)
      else Raise (ValueError "image has wrong mode")
  end.

(** [Image.point(lut)]: sample [v] of band [k] becomes
    [lut[256 * k + v]]. *)
Definition point (im : t) (lut : list Z) : t :=
  {| mode := mode im; width := width im; height := height im;
     rows := map_pixels
               (imap (λ (k : nat) (v : Z),
                  default 0 (lut !! (256 * k + Z.to_nat v)%nat)))
               (rows im) |}.

(** [UINT8] assignment. *)
Definition UINT8 (z : Z) : Z := z `mod` 256.

(** [DIV255] and [BLEND8] of [ImagingUtils.h]. *)
Definition DIV255 (a : Z) : Z :=
  let tmp := a + 128 in Z.shiftr (Z.shiftr tmp 8 + tmp) 8.

Definition BLEND8 (mask in1 in2 : Z) : Z :=
  DIV255 (in1 * (255 - mask) + in2 * mask).

(** Blending of one stored sample: the byte of an 8-bit band, each of
    the four bytes of a 32-bit band. *)
Definition blend_sample (m : Mode) (a out inp : Z) : Z :=
  if is_uint8 m then UINT8 (BLEND8 a out inp)
  else
    let byte (k v : Z) := Z.land (Z.shiftr v (8 * k)) 255 in
    let b (k : Z) := Z.shiftl (UINT8 (BLEND8 a (byte k out) (byte k inp))) (8 * k) in
    b 0 + b 1 + b 2 + b 3.

(** The matte value of a mask pixel: the band of "L", the alpha band
    of "LA" and "RGBA". *)
Definition matte (p : Pixel) : Z := default 0 (last p).

(** The samples that a pixel of mode [src] leaves in an image of mode
    [dst] when it is pasted without conversion: "LA" and "RGBA" pixels
    share their storage layout with "RGB". *)
Definition as_stored (dst src : Mode) (p : Pixel) : Pixel :=
  if decide (dst = src) then p
  else
    match src with
    | LA => let l := default 0 (p !! 0%nat) in [l; l; l]
    | RGBA => take 3 p
    | _ => p
    end.

(** The loops of [paste], [paste_mask_L] and [paste_mask_RGBA]: the
    region of [xsize] by [ysize] pixels at [(dx, dy)] of [imOut] is
    written from the region at [(sx, sy)] of [imIn]. *)
Definition paste_region (imOut imIn : t) (imMask : option t)
    (dx dy sx sy xsize ysize : Z) : t :=
  {| mode := mode imOut; width := width imOut; height := height imOut;
     rows := tabulate (width imOut) (height imOut) (λ x y,
       let out := default [] (pixel_at (rows imOut) x y) in
       if bool_decide (dx ≤ x < dx + xsize ∧ dy ≤ y < dy + ysize) then
         let inp := as_stored (mode imOut) (mode imIn)
                      (default [] (pixel_at (rows imIn) (x - dx + sx) (y - dy + sy))) in
         match imMask with
         | None => inp
         | Some mask =>
             let a := matte (default [] (pixel_at (rows mask) (x - dx + sx) (y - dy + sy))) in
             zip_with (blend_sample (mode imOut) a) out inp
         end
       else out) |}.

(** [ImagingPaste] of [Paste.c]. *)
Definition ImagingPaste (imOut imIn : t) (imMask : option t)
    (dx0 dy0 dx1 dy1 : Z) : result t :=
  let xsize := dx1 - dx0 in
  let ysize := dy1 - dy0 in
  if negb ((xsize =? width imIn) && (ysize =? height imIn)
           && (pixelsize (mode imOut) =? pixelsize (mode imIn))) then
    Raise (ValueError "images do not match")
  else if match imMask with
          | Some mask => negb ((xsize =? width mask) && (ysize =? height mask))
          | None => false
          end then
    Raise (ValueError "images do not match")
  else
    (* Determine which region to copy *)
    let '(xsize, sx0, dx0) :=
      if dx0 <? 0 then (xsize + dx0, - dx0, 0) else (xsize, 0, dx0) in
    let xsize :=
      if width imOut <? dx0 + xsize then width imOut - dx0 else xsize in
    let '(ysize, sy0, dy0) :=
      if dy0 <? 0 then (ysize + dy0, - dy0, 0) else (ysize, 0, dy0) in
    let ysize :=
      if height imOut <? dy0 + ysize then height imOut - dy0 else ysize in
    if (xsize <=? 0) || (ysize <=? 0) then Ok imOut
    else
      match imMask with
      | None => Ok (paste_region imOut imIn None dx0 dy0 sx0 sy0 xsize ysize)
      | Some mask =>
          match mode mask with
          | L | LA | RGBA =>
              Ok (paste_region imOut imIn imMask dx0 dy0 sx0 sy0 xsize ysize)
          | _ => Raise (ValueError "bad transparency mask")
          end
      end.

(** [Image.paste(im, box, mask)] with a 2-tuple [box].  The image is
    mutated in place in Python; here the pasted image is returned. *)
Definition paste {codec : Codec} (self im : t) (box : Z * Z) (mask : option t)
  : result t :=
  let '(x0, y0) := box in
  im' ← (if decide (mode self = mode im) then Ok im
         else if bool_decide (mode self = RGB ∧ (mode im = LA ∨ mode im = RGBA))
              then Ok im
              else convert im (mode self));
  ImagingPaste self im' mask x0 y0 (x0 + width im) (y0 + height im).

End Image.

Module ImageNumpy.
Import Image.

(** [Image.__array_interface__]: shape [(h, w)] for one band and
    [(h, w, bands)] otherwise. *)
Definition array_interface (im : t) : numpy.typestr * numpy.ndarray Z :=
  (match mode im with
   | I => numpy.i4
   | F => numpy.f4
   | _ => numpy.u1
   end,
   {| numpy.shape :=
        if (bands (mode im) =? 1)%nat then [height im; width im]
        else [height im; width im; Z.of_nat (bands (mode im))];
      numpy.items := rows im |}).

(** [Image.fromarray] on an array of [uint8]: the mode comes from the
    shape ([_fromarray_typemap]). *)
Definition fromarray (a : numpy.ndarray Z) : result t :=
  match numpy.shape a with
  | [h; w] =>
      Ok {| mode := L; width := w; height := h; rows := numpy.items a |}
  | [h; w; c] =>
      match (if c =? 2 then Some LA
             else if c =? 3 then Some RGB
             else if c =? 4 then Some RGBA
             else None) with
      | Some m =>
          Ok {| mode := m; width := w; height := h; rows := numpy.items a |}
      | None => Raise (TypeError "Cannot handle this data type")
      end
  | _ => Raise (ValueError "Too many dimensions")
  end.

End ImageNumpy.

Module ImageOps.
Import Image.

(** [lut = [255 - i for i in range(256)]] *)
Definition lut : list Z := (λ i, 255 - i) <$> seqZ 0 256.

(** [ImageOps.invert], through [_lut]: modes "L" and "RGB" only. *)
Definition invert (image : t) : result t :=
  match mode image with
  | L => Ok (point image lut)
  | RGB => Ok (point image (lut ++ lut ++ lut))
  | _ => Raise (OSError "not supported for this image mode")
  end.

End ImageOps.

Module ImageChops.
Import Image.

(** The [CHOP] macro of [Chops.c]: the operation's result clipped to a
    byte. *)
Definition CHOP (temp : Z) : Z :=
  if temp <=? 0 then 0 else if 255 <=? temp then 255 else temp.

(** [ImagingChopMultiply], after [create] of [Chops.c]: the operands
    must have 8-bit bands and the same number of bands; [create] takes
    the smaller width and the smaller height for the output, so images of
    different sizes are multiplied over their common region and no size
    check fails. *)
Definition multiply (image1 image2 : t) : result t :=
  if negb (is_uint8 (mode image1)) then
    Raise (ValueError "image has wrong mode")
  else if negb (is_uint8 (mode image2))
          || negb (bands (mode image1) =? bands (mode image2))%nat then
    Raise (ValueError "images do not match")
  else
    let xsize := if width image1 <? width image2 then width image1 else width image2 in
    let ysize := if height image1 <? height image2 then height image1 else height image2 in
    Ok {| mode := mode image1; width := xsize; height := ysize;
          rows := tabulate xsize ysize (λ x y,
            zip_with (λ in1 in2, CHOP (in1 * in2 ÷ 255))
              (default [] (pixel_at (rows image1) x y))
              (default [] (pixel_at (rows image2) x y))) |}.

End ImageChops.

End PIL.

Import PIL.
Import Py.

(** ** The image models and the image service of the invocation context *)

(** [invokeai.app.models.image] *)
Inductive ImageCategory : Type := GENERAL | MASK | CONTROL | USER | OTHER.
Inductive ResourceOrigin : Type := INTERNAL | EXTERNAL.

Record ImageField : Type := { image_name : string }.

Module ImageOutput.
Record t : Type := { image : ImageField; width : Z; height : Z }.
End ImageOutput.

Module MaskOutput.
Record t : Type := { mask : ImageField; width : Z; height : Z }.
End MaskOutput.

(** [CoreMetadata.dict()]: a provenance record that no node interprets. *)
Definition CoreMetadata : Type := list (string * string).

(** The fields that every node inherits from [BaseInvocation]. *)
Record BaseInvocation : Type := { id : string; is_intermediate : bool }.

(** What the image service keeps of a created image. *)
Record ImageRecord : Type := {
  pil_image : Image.t;
  image_origin : ResourceOrigin;
  image_category : ImageCategory;
  node_id : string;
  session_id : string;
  intermediate : bool;
  metadata : option CoreMetadata;
}.

Record ImageDTO : Type := {
  dto_image_name : string;
  dto_width : Z;
  dto_height : Z;
}.

Record InvocationContext : Type := {
  images : gmap string ImageRecord;
  names_issued : nat;
  graph_execution_state_id : string;
}.

Module ImageService.

(** Modelled from the spec: [context.services.images.get_pil_image] is
    not in the source file; section 6 gives [fetch(name) -> raster],
    failing when the name is absent. *)
Definition get_pil_image (context : InvocationContext) (name : string)
  : result Image.t :=
  match images context !! name with
  | Some r => Ok (pil_image r)
  | None => Raise (ImageFileNotFoundException name)
  end.

(** The name given to the next created image. *)
Definition new_name (context : InvocationContext) : string :=
  "image_" +:+ pretty (names_issued context).

(** Modelled from the spec: [context.services.images.create] is not in
    the source file; section 6 gives [create(raster, origin, category,
    node_id, session_id, is_intermediate, metadata?)], which stores the
    raster and returns a descriptor with its name, width and height. *)
Definition create (context : InvocationContext) (image : Image.t)
    (origin : ResourceOrigin) (category : ImageCategory)
    (node session : string) (is_inter : bool) (meta : option CoreMetadata)
  : ImageDTO * InvocationContext :=
  let name := new_name context in
  ({| dto_image_name := name;
      dto_width := Image.width image;
      dto_height := Image.height image |},
   {| images := <[name := {| pil_image := image; image_origin := origin;
                             image_category := category; node_id := node;
                             session_id := session; intermediate := is_inter;
                             metadata := meta |}]> (images context);
      names_issued := S (names_issued context);
      graph_execution_state_id := graph_execution_state_id context |}).

End ImageService.

(** The capabilities of [invokeai.backend] that two nodes call. *)
Class Backend : Type := {
  (** [SafetyChecker.has_nsfw_concept] *)
  has_nsfw_concept : Image.t → result bool;
  (** Modelled from the spec: [InvisibleWatermark.add_watermark] is not in
      the source file; section 4.5 gives [add_watermark(raster, text) ->
      raster] with a result of identical dimensions.  The capability
      supplies the mode and the pixels of the result. *)
  watermark_pixels : Image.t → string → result (Image.Mode * (Z → Z → Image.Pixel));
  (** The bundled asset [caution.png]. *)
  caution_png : Image.t;
}.

Module InvisibleWatermark.
Definition add_watermark {backend : Backend} (image : Image.t) (text : string)
  : result Image.t :=
  r ← watermark_pixels image text;
  Ok {| Image.mode := r.1; Image.width := Image.width image;
        Image.height := Image.height image;
        Image.rows := Image.tabulate (Image.width image) (Image.height image) r.2 |}.
End InvisibleWatermark.

(** The output of a node that created [image_dto]. *)
Definition image_output (image_dto : ImageDTO) : ImageOutput.t :=
  {| ImageOutput.image := {| image_name := dto_image_name image_dto |};
     ImageOutput.width := dto_width image_dto;
     ImageOutput.height := dto_height image_dto |}.

Definition mask_output (image_dto : ImageDTO) : MaskOutput.t :=
  {| MaskOutput.mask := {| image_name := dto_image_name image_dto |};
     MaskOutput.width := dto_width image_dto;
     MaskOutput.height := dto_height image_dto |}.

(** ** The invocations

    One module per class of [image.py], with the fields of the class and
    its [invoke].  An image field that the node's UI configuration marks
    as required is taken as present ([Optional] in the source, where
    [None] makes the first attribute access raise); the optional mask of
    Paste is an [option]. *)

Module LoadImageInvocation.
Record t : Type := { base : BaseInvocation; image : ImageField }.

Definition invoke (self : t) (context : InvocationContext)
  : result (ImageOutput.t * InvocationContext) :=
  image ← ImageService.get_pil_image context (image_name (image self));
  Ok ({| ImageOutput.image := {| image_name := image_name (LoadImageInvocation.image self) |};
         ImageOutput.width := Image.width image;
         ImageOutput.height := Image.height image |}, context).
End LoadImageInvocation.

Module ShowImageInvocation.
Record t : Type := { base : BaseInvocation; image : ImageField }.

(** [image.show()] opens a viewer; it changes neither the image nor the
    context. *)
Definition invoke (self : t) (context : InvocationContext)
  : result (ImageOutput.t * InvocationContext) :=
  image ← ImageService.get_pil_image context (image_name (image self));
  Ok ({| ImageOutput.image := {| image_name := image_name (ShowImageInvocation.image self) |};
         ImageOutput.width := Image.width image;
         ImageOutput.height := Image.height image |}, context).
End ShowImageInvocation.

Module ImageCropInvocation.
Record t : Type := {
  base : BaseInvocation;
  image : ImageField;
  x : Z;
  y : Z;
  width : Z;
  height : Z;
}.

(** [width: int = Field(gt=0)], [height: int = Field(gt=0)] *)
Definition validate (self : t) : bool :=
  (0 <? width self) && (0 <? height self).

Definition invoke {codec : Image.Codec} (self : t) (context : InvocationContext)
  : result (ImageOutput.t * InvocationContext) :=
  image ← ImageService.get_pil_image context (image_name (image self));
  image_crop ← Image.new Image.RGBA (width self, height self) [0; 0; 0; 0];
  image_crop ← Image.paste image_crop image (- x self, - y self) None;
  let '(image_dto, context) :=
    ImageService.create context image_crop INTERNAL GENERAL
      (id (base self)) (graph_execution_state_id context)
      (is_intermediate (base self)) None in
  Ok (image_output image_dto, context).
End ImageCropInvocation.

Module ImagePasteInvocation.
Record t : Type := {
  base : BaseInvocation;
  base_image : ImageField;
  image : ImageField;
  mask : option ImageField;
  x : Z;
  y : Z;
}.

Definition invoke {codec : Image.Codec} (self : t) (context : InvocationContext)
  : result (ImageOutput.t * InvocationContext) :=
  base_image ← ImageService.get_pil_image context (image_name (base_image self));
  image ← ImageService.get_pil_image context (image_name (image self));
  mask ← match mask self with
         | None => Ok None
         | Some m =>
             fetched ← ImageService.get_pil_image context (image_name m);
             inverted ← ImageOps.invert fetched;
             Ok (Some inverted)
         end;
  let min_x := Z.min 0 (x self) in
  let min_y := Z.min 0 (y self) in
  let max_x := Z.max (Image.width base_image) (Image.width image + x self) in
  let max_y := Z.max (Image.height base_image) (Image.height image + y self) in
  new_image ← Image.new Image.RGBA (max_x - min_x, max_y - min_y) [0; 0; 0; 0];
  new_image ← Image.paste new_image base_image (Z.abs min_x, Z.abs min_y) None;
  new_image ← Image.paste new_image image (Z.max 0 (x self), Z.max 0 (y self)) mask;
  let '(image_dto, context) :=
    ImageService.create context new_image INTERNAL GENERAL
      (id (base self)) (graph_execution_state_id context)
      (is_intermediate (base self)) None in
  Ok (image_output image_dto, context).
End ImagePasteInvocation.

Module MaskFromAlphaInvocation.
Record t : Type := {
  base : BaseInvocation;
  image : ImageField;
  invert : bool;
}.

(** [image.split()[-1]] *)
Definition last_band (image : Image.t) : result Image.t :=
  match last (Image.split image) with
  | Some band => Ok band
  | None => Raise (KeyError "tuple index out of range")
  end.

Definition invoke (self : t) (context : InvocationContext)
  : result (MaskOutput.t * InvocationContext) :=
  image ← ImageService.get_pil_image context (image_name (image self));
  image_mask ← last_band image;
  image_mask ← (if invert self then ImageOps.invert image_mask else Ok image_mask);
  let '(image_dto, context) :=
    ImageService.create context image_mask INTERNAL MASK
      (id (base self)) (graph_execution_state_id context)
      (is_intermediate (base self)) None in
  Ok (mask_output image_dto, context).
End MaskFromAlphaInvocation.

Module ImageMultiplyInvocation.
Record t : Type := {
  base : BaseInvocation;
  image1 : ImageField;
  image2 : ImageField;
}.

Definition invoke (self : t) (context : InvocationContext)
  : result (ImageOutput.t * InvocationContext) :=
  image1 ← ImageService.get_pil_image context (image_name (image1 self));
  image2 ← ImageService.get_pil_image context (image_name (image2 self));
  multiply_image ← ImageChops.multiply image1 image2;
  let '(image_dto, context) :=
    ImageService.create context multiply_image INTERNAL GENERAL
      (id (base self)) (graph_execution_state_id context)
      (is_intermediate (base self)) None in
  Ok (image_output image_dto, context).
End ImageMultiplyInvocation.

(** [IMAGE_CHANNELS = Literal["A", "R", "G", "B"]] *)
Inductive IMAGE_CHANNELS : Type := chan_A | chan_R | chan_G | chan_B.

Definition channel_name (c : IMAGE_CHANNELS) : string :=
  match c with
  | chan_A => "A" | chan_R => "R" | chan_G => "G" | chan_B => "B"
  end.

Module ImageChannelInvocation.
Record t : Type := {
  base : BaseInvocation;
  image : ImageField;
  channel : IMAGE_CHANNELS;
}.

Definition invoke (self : t) (context : InvocationContext)
  : result (ImageOutput.t * InvocationContext) :=
  image ← ImageService.get_pil_image context (image_name (image self));
  channel_image ← Image.getchannel image (channel_name (channel self));
  let '(image_dto, context) :=
    ImageService.create context channel_image INTERNAL GENERAL
      (id (base self)) (graph_execution_state_id context)
      (is_intermediate (base self)) None in
  Ok (image_output image_dto, context).
End ImageChannelInvocation.

(** [IMAGE_MODES = Literal["L", "RGB", "RGBA", "CMYK", "YCbCr", "LAB",
    "HSV", "I", "F"]] *)
Inductive IMAGE_MODES : Type :=
| mode_L | mode_RGB | mode_RGBA | mode_CMYK | mode_YCbCr | mode_LAB
| mode_HSV | mode_I | mode_F.

Definition pil_mode (m : IMAGE_MODES) : Image.Mode :=
  match m with
  | mode_L => Image.L | mode_RGB => Image.RGB | mode_RGBA => Image.RGBA
  | mode_CMYK => Image.CMYK | mode_YCbCr => Image.YCbCr
  | mode_LAB => Image.LAB | mode_HSV => Image.HSV
  | mode_I => Image.I | mode_F => Image.F
  end.

Module ImageConvertInvocation.
Record t : Type := {
  base : BaseInvocation;
  image : ImageField;
  mode : IMAGE_MODES;
}.

Definition invoke {codec : Image.Codec} (self : t) (context : InvocationContext)
  : result (ImageOutput.t * InvocationContext) :=
  image ← ImageService.get_pil_image context (image_name (image self));
  converted_image ← Image.convert image (pil_mode (mode self));
  let '(image_dto, context) :=
    ImageService.create context converted_image INTERNAL GENERAL
      (id (base self)) (graph_execution_state_id context)
      (is_intermediate (base self)) None in
  Ok (image_output image_dto, context).
End ImageConvertInvocation.

Inductive blur_types : Type := gaussian | box_blur.

Module ImageBlurInvocation.
Record t : Type := {
  base : BaseInvocation;
  image : ImageField;
  radius : Py.float;
  blur_type : blur_types;
}.

(** [radius: float = Field(ge=0)] *)
Definition validate (self : t) : bool :=
  SFleb (S754_zero false) (radius self).

Definition invoke {codec : Image.Codec} (self : t) (context : InvocationContext)
  : result (ImageOutput.t * InvocationContext) :=
  image ← ImageService.get_pil_image context (image_name (image self));
  let blur :=
    match blur_type self with
    | gaussian => Image.GaussianBlur
    | box_blur => Image.BoxBlur
    end in
  blur_image ← Image.filter image blur (radius self);
  let '(image_dto, context) :=
    ImageService.create context blur_image INTERNAL GENERAL
      (id (base self)) (graph_execution_state_id context)
      (is_intermediate (base self)) None in
  Ok (image_output image_dto, context).
End ImageBlurInvocation.

Inductive PIL_RESAMPLING_MODES : Type :=
| nearest | box | bilinear | hamming | bicubic | lanczos.

Definition PIL_RESAMPLING_MAP (m : PIL_RESAMPLING_MODES) : Image.Resampling :=
  match m with
  | nearest => Image.NEAREST
  | box => Image.BOX
  | bilinear => Image.BILINEAR
  | hamming => Image.HAMMING
  | bicubic => Image.BICUBIC
  | lanczos => Image.LANCZOS
  end.

Module ImageResizeInvocation.
Record t : Type := {
  base : BaseInvocation;
  image : ImageField;
  width : Z;
  height : Z;
  resample_mode : PIL_RESAMPLING_MODES;
}.

(** [Field(ge=64, multiple_of=8)] on both sizes *)
Definition validate (self : t) : bool :=
  (64 <=? width self) && (width self `mod` 8 =? 0)
  && (64 <=? height self) && (height self `mod` 8 =? 0).

Definition invoke {codec : Image.Codec} (self : t) (context : InvocationContext)
  : result (ImageOutput.t * InvocationContext) :=
  image ← ImageService.get_pil_image context (image_name (image self));
  let resample_mode := PIL_RESAMPLING_MAP (resample_mode self) in
  resize_image ← Image.resize image (width self, height self) resample_mode;
  let '(image_dto, context) :=
    ImageService.create context resize_image INTERNAL GENERAL
      (id (base self)) (graph_execution_state_id context)
      (is_intermediate (base self)) None in
  Ok (image_output image_dto, context).
End ImageResizeInvocation.

Module ImageScaleInvocation.
Record t : Type := {
  base : BaseInvocation;
  image : ImageField;
  scale_factor : Py.float;
  resample_mode : PIL_RESAMPLING_MODES;
}.

(** [scale_factor: Optional[float] = Field(gt=0)] *)
Definition validate (self : t) : bool :=
  Py.float_gt0 (scale_factor self).

Definition invoke {codec : Image.Codec} (self : t) (context : InvocationContext)
  : result (ImageOutput.t * InvocationContext) :=
  image ← ImageService.get_pil_image context (image_name (image self));
  let resample_mode := PIL_RESAMPLING_MAP (resample_mode self) in
  width ← Py.int_mul_float (Image.width image) (scale_factor self) ≫= Py.int_of_float;
  height ← Py.int_mul_float (Image.height image) (scale_factor self) ≫= Py.int_of_float;
  resize_image ← Image.resize image (width, height) resample_mode;
  let '(image_dto, context) :=
    ImageService.create context resize_image INTERNAL GENERAL
      (id (base self)) (graph_execution_state_id context)
      (is_intermediate (base self)) None in
  Ok (image_output image_dto, context).
End ImageScaleInvocation.

Module ImageLerpInvocation.
Record t : Type := {
  base : BaseInvocation;
  image : ImageField;
  min : Z;
  max : Z;
}.

(** [Field(ge=0, le=255)] on [min] and [max] *)
Definition validate (self : t) : bool :=
  (0 <=? min self) && (min self <=? 255)
  && (0 <=? max self) && (max self <=? 255).

(** The two array statements on one element:
    [e / 255], then [e * (self.max - self.min) + self.max]. *)
Definition lerp (self : t) (e : numpy.float32) : numpy.float32 :=
  numpy.add
    (numpy.multiply (numpy.divide e (numpy.float32_of_int 255))
       (numpy.float32_of_int (max self - min self)))
    (numpy.float32_of_int (max self)).

Definition invoke (self : t) (context : InvocationContext)
  : result (ImageOutput.t * InvocationContext) :=
  image ← ImageService.get_pil_image context (image_name (image self));
  let image_arr :=
    numpy.map (λ e, numpy.divide e (numpy.float32_of_int 255))
      (numpy.asarray (ImageNumpy.array_interface image)) in
  let image_arr :=
    numpy.map (λ e, numpy.add
                      (numpy.multiply e (numpy.float32_of_int (max self - min self)))
                      (numpy.float32_of_int (max self)))
      image_arr in
  lerp_image ← ImageNumpy.fromarray (numpy.map numpy.uint8 image_arr);
  let '(image_dto, context) :=
    ImageService.create context lerp_image INTERNAL GENERAL
      (id (base self)) (graph_execution_state_id context)
      (is_intermediate (base self)) None in
  Ok (image_output image_dto, context).
End ImageLerpInvocation.

Module ImageInverseLerpInvocation.
Record t : Type := {
  base : BaseInvocation;
  image : ImageField;
  min : Z;
  max : Z;
}.

(** [Field(ge=0, le=255)] on [min] and [max] *)
Definition validate (self : t) : bool :=
  (0 <=? min self) && (min self <=? 255)
  && (0 <=? max self) && (max self <=? 255).

(** The array statement on one element, [divisor] being
    [float(self.max - self.min)]:
    [minimum(maximum(e - self.min, 0) / divisor, 1) * 255]. *)
Definition ilerp (self : t) (divisor : Py.float) (e : numpy.float32)
  : numpy.float32 :=
  numpy.multiply
    (numpy.minimum
       (numpy.divide
          (numpy.maximum (numpy.subtract e (numpy.float32_of_int (min self)))
             (numpy.float32_of_int 0))
          (numpy.float32_of_float divisor))
       (numpy.float32_of_int 1))
    (numpy.float32_of_int 255).

Definition invoke (self : t) (context : InvocationContext)
  : result (ImageOutput.t * InvocationContext) :=
  image ← ImageService.get_pil_image context (image_name (image self));
  let image_arr := numpy.asarray (ImageNumpy.array_interface image) in
  divisor ← Py.float_of_int (max self - min self);
  let image_arr := numpy.map (ilerp self divisor) image_arr in
  ilerp_image ← ImageNumpy.fromarray (numpy.map numpy.uint8 image_arr);
  let '(image_dto, context) :=
    ImageService.create context ilerp_image INTERNAL GENERAL
      (id (base self)) (graph_execution_state_id context)
      (is_intermediate (base self)) None in
  Ok (image_output image_dto, context).
End ImageInverseLerpInvocation.

Module ImageNSFWBlurInvocation.
Record t : Type := {
  base : BaseInvocation;
  image : ImageField;
  metadata : option CoreMetadata;
}.

(** [caution.resize((caution.width // 2, caution.height // 2))], with
    the default filter of [resize]. *)
Definition _get_caution_img {codec : Image.Codec} {backend : Backend} : result Image.t :=
  let caution := caution_png in
  Image.resize caution (Image.width caution `div` 2, Image.height caution `div` 2)
    Image.BICUBIC.

Definition invoke {codec : Image.Codec} {backend : Backend} (self : t) (context : InvocationContext)
  : result (ImageOutput.t * InvocationContext) :=
  image ← ImageService.get_pil_image context (image_name (image self));
  flagged ← has_nsfw_concept image;
  image ← (if flagged : bool then
             blurry_image ← Image.filter image Image.GaussianBlur
                              (binary_normalize Py.prec Py.emax 32 0 false);
             caution ← _get_caution_img;
             Image.paste blurry_image caution (0, 0) (Some caution)
           else Ok image);
  let '(image_dto, context) :=
    ImageService.create context image INTERNAL GENERAL
      (id (base self)) (graph_execution_state_id context)
      (is_intermediate (base self)) (metadata self) in
  Ok (image_output image_dto, context).
End ImageNSFWBlurInvocation.

Module ImageWatermarkInvocation.
Record t : Type := {
  base : BaseInvocation;
  image : ImageField;
  text : string;
  metadata : option CoreMetadata;
}.

Definition invoke {backend : Backend} (self : t) (context : InvocationContext)
  : result (ImageOutput.t * InvocationContext) :=
  image ← ImageService.get_pil_image context (image_name (image self));
  new_image ← InvisibleWatermark.add_watermark image (text self);
  let '(image_dto, context) :=
    ImageService.create context new_image INTERNAL GENERAL
      (id (base self)) (graph_execution_state_id context)
      (is_intermediate (base self)) (metadata self) in
  Ok (image_output image_dto, context).
End ImageWatermarkInvocation.

(** ** The nodes as one tagged union, by their [type] tag *)

Inductive Invocation : Type :=
| load_image (n : LoadImageInvocation.t)
| show_image (n : ShowImageInvocation.t)
| img_crop (n : ImageCropInvocation.t)
| img_paste (n : ImagePasteInvocation.t)
| tomask (n : MaskFromAlphaInvocation.t)
| img_mul (n : ImageMultiplyInvocation.t)
| img_chan (n : ImageChannelInvocation.t)
| img_conv (n : ImageConvertInvocation.t)
| img_blur (n : ImageBlurInvocation.t)
| img_resize (n : ImageResizeInvocation.t)
| img_scale (n : ImageScaleInvocation.t)
| img_lerp (n : ImageLerpInvocation.t)
| img_ilerp (n : ImageInverseLerpInvocation.t)
| img_nsfw (n : ImageNSFWBlurInvocation.t)
| img_watermark (n : ImageWatermarkInvocation.t).

(** The field constraints that pydantic checks when a node is built. *)
Definition validate (node : Invocation) : bool :=
  match node with
  | img_crop n => ImageCropInvocation.validate n
  | img_blur n => ImageBlurInvocation.validate n
  | img_resize n => ImageResizeInvocation.validate n
  | img_scale n => ImageScaleInvocation.validate n
  | img_lerp n => ImageLerpInvocation.validate n
  | img_ilerp n => ImageInverseLerpInvocation.validate n
  | _ => true
  end.

(** The reference and the size that an output carries, whatever its
    class. *)
Record Output : Type := {
  out_name : string;
  out_width : Z;
  out_height : Z;
}.

Definition of_image_output (o : ImageOutput.t) : Output :=
  {| out_name := image_name (ImageOutput.image o);
     out_width := ImageOutput.width o;
     out_height := ImageOutput.height o |}.

Definition of_mask_output (o : MaskOutput.t) : Output :=
  {| out_name := image_name (MaskOutput.mask o);
     out_width := MaskOutput.width o;
     out_height := MaskOutput.height o |}.

Definition as_image {A : Type} (f : A → Output)
    (r : result (A * InvocationContext)) : result (Output * InvocationContext) :=
  r ≫= λ p, Ok (f p.1, p.2).

(** The dispatch of the engine on the tag. *)
Definition invoke {codec : Image.Codec} {backend : Backend} (node : Invocation)
    (context : InvocationContext) : result (Output * InvocationContext) :=
  match node with
  | load_image n => as_image of_image_output (LoadImageInvocation.invoke n context)
  | show_image n => as_image of_image_output (ShowImageInvocation.invoke n context)
  | img_crop n => as_image of_image_output (ImageCropInvocation.invoke n context)
  | img_paste n => as_image of_image_output (ImagePasteInvocation.invoke n context)
  | tomask n => as_image of_mask_output (MaskFromAlphaInvocation.invoke n context)
  | img_mul n => as_image of_image_output (ImageMultiplyInvocation.invoke n context)
  | img_chan n => as_image of_image_output (ImageChannelInvocation.invoke n context)
  | img_conv n => as_image of_image_output (ImageConvertInvocation.invoke n context)
  | img_blur n => as_image of_image_output (ImageBlurInvocation.invoke n context)
  | img_resize n => as_image of_image_output (ImageResizeInvocation.invoke n context)
  | img_scale n => as_image of_image_output (ImageScaleInvocation.invoke n context)
  | img_lerp n => as_image of_image_output (ImageLerpInvocation.invoke n context)
  | img_ilerp n => as_image of_image_output (ImageInverseLerpInvocation.invoke n context)
  | img_nsfw n => as_image of_image_output (ImageNSFWBlurInvocation.invoke n context)
  | img_watermark n => as_image of_image_output (ImageWatermarkInvocation.invoke n context)
  end.

(** ** Reading an invocation's result *)

(** The image that the service holds under [name]. *)
Definition stored (context : InvocationContext) (name : string) : option Image.t :=
  pil_image <$> images context !! name.

(** Sample [k] of the pixel at [(x, y)]. *)
Definition sample_at (im : Image.t) (x y : Z) (k : nat) : option Z :=
  p ← Image.pixel_at (Image.rows im) x y; p !! k.

(** Every stored image has a positive width and height. *)
Definition positive_store (context : InvocationContext) : bool :=
  forallb (λ p, (0 <? Image.width (pil_image p.2)) && (0 <? Image.height (pil_image p.2)))
    (map_to_list (images context)).

(** The array element of a stored sample of mode [m]
    (see [numpy.asarray]). *)
Definition element (m : Image.Mode) (v : Z) : numpy.float32 :=
  match m with
  | Image.I => numpy.float32_of_int (numpy.signed32 v)
  | Image.F => numpy.float32_of_bits v
  | _ => numpy.float32_of_int v
  end.

(** The mode that [Image.fromarray] gives to the array of an image of
    mode [m]. *)
Definition array_mode (m : Image.Mode) : Image.Mode :=
  match Image.bands m with
  | 1%nat => Image.L
  | 2%nat => Image.LA
  | 3%nat => Image.RGB
  | _ => Image.RGBA
  end.

(** ** Concrete inputs

    A codec, a backend and small stores on which the nodes are run. *)

Module Examples.

(** Converters to "RGBA" that Pillow has ([l2rgb], [la2rgb],
    [rgb2rgba]); nearest-neighbour sampling for every filter; no
    blur. *)
Definition codec : Image.Codec :=
  {| Image.ImagingConvert := λ src dst,
       match src, dst with
       | Image.L, Image.RGBA =>
           Some (λ p, let l := default 0 (p !! 0%nat) in [l; l; l; 255])
       | Image.LA, Image.RGBA =>
           Some (λ p, let l := default 0 (p !! 0%nat) in
                      [l; l; l; default 0 (p !! 1%nat)])
       | Image.RGB, Image.RGBA => Some (λ p, take 3 p ++ [255])
       | _, _ => None
       end;
     Image.ImagingBlur := λ _ _ _, None;
     Image.ImagingResample := λ _ im xsize ysize x y,
       default []
         (Image.pixel_at (Image.rows im)
            (((2 * x + 1) * Image.width im) `div` (2 * xsize))
            (((2 * y + 1) * Image.height im) `div` (2 * ysize))) |}.

Definition backend : Backend :=
  {| has_nsfw_concept := λ _, Ok false;
     watermark_pixels := λ im _,
       Ok (Image.mode im, λ x y, default [] (Image.pixel_at (Image.rows im) x y));
     caution_png :=
       {| Image.mode := Image.RGBA; Image.width := 2; Image.height := 2;
          Image.rows := [[[255; 200; 0; 255]; [255; 200; 0; 255]];
                         [[255; 200; 0; 255]; [255; 200; 0; 255]]] |} |}.

Definition node : BaseInvocation := {| id := "node"; is_intermediate := false |}.

Definition record_of (im : Image.t) : ImageRecord :=
  {| pil_image := im; image_origin := EXTERNAL; image_category := GENERAL;
     node_id := ""; session_id := ""; intermediate := false; metadata := None |}.

Definition context_of (l : list (string * Image.t)) : InvocationContext :=
  {| images := list_to_map ((λ p, (p.1, record_of p.2)) <$> l);
     names_issued := 0;
     graph_execution_state_id := "session" |}.

(** A 2 by 1 grey image, a 1 by 1 grey image, a 1 by 1 "RGB" image, a
    2 by 2 "RGBA" image and a 2 by 2 grey mask. *)
Definition grey : Image.t :=
  {| Image.mode := Image.L; Image.width := 2; Image.height := 1;
     Image.rows := [[[200]; [50]]] |}.

Definition dot : Image.t :=
  {| Image.mode := Image.L; Image.width := 1; Image.height := 1;
     Image.rows := [[[255]]] |}.

Definition rgb : Image.t :=
  {| Image.mode := Image.RGB; Image.width := 1; Image.height := 1;
     Image.rows := [[[10; 20; 30]]] |}.

Definition rgba : Image.t :=
  {| Image.mode := Image.RGBA; Image.width := 2; Image.height := 2;
     Image.rows := [[[255; 0; 0; 255]; [0; 255; 0; 128]];
                    [[0; 0; 255; 64]; [9; 9; 9; 0]]] |}.

Definition matte : Image.t :=
  {| Image.mode := Image.L; Image.width := 2; Image.height := 2;
     Image.rows := [[[0]; [255]]; [[100]; [30]]] |}.

Definition context : InvocationContext :=
  context_of [("grey", grey); ("dot", dot); ("rgb", rgb); ("rgba", rgba);
              ("matte", matte)].


(** The doubles 2.0 and 0.25. *)
Definition two : Py.float := S754_finite false 4503599627370496 (-51).

(** Scale of the "RGBA" image by a factor, and that image at twice its
    size. *)
Definition scale_by (factor : Py.float) : ImageScaleInvocation.t :=
  {| ImageScaleInvocation.base := node;
     ImageScaleInvocation.image := {| image_name := "rgba" |};
     ImageScaleInvocation.scale_factor := factor;
     ImageScaleInvocation.resample_mode := bicubic |}.

Definition rgba_doubled : Image.t :=
  {| Image.mode := Image.RGBA; Image.width := 4; Image.height := 4;
     Image.rows :=
       Image.tabulate 4 4
         (Image.ImagingResample (Codec := codec) Image.BICUBIC rgba 4 4) |}.

End Examples.

(** ** The images that a node reads, and what it records *)

(** The names that [invoke] fetches, in the order of the fetches. *)
Definition inputs (node : Invocation) : list string :=
  match node with
  | load_image n => [image_name (LoadImageInvocation.image n)]
  | show_image n => [image_name (ShowImageInvocation.image n)]
  | img_crop n => [image_name (ImageCropInvocation.image n)]
  | img_paste n =>
      [image_name (ImagePasteInvocation.base_image n);
       image_name (ImagePasteInvocation.image n)]
      ++ match ImagePasteInvocation.mask n with
         | Some m => [image_name m]
         | None => []
         end
  | tomask n => [image_name (MaskFromAlphaInvocation.image n)]
  | img_mul n =>
      [image_name (ImageMultiplyInvocation.image1 n);
       image_name (ImageMultiplyInvocation.image2 n)]
  | img_chan n => [image_name (ImageChannelInvocation.image n)]
  | img_conv n => [image_name (ImageConvertInvocation.image n)]
  | img_blur n => [image_name (ImageBlurInvocation.image n)]
  | img_resize n => [image_name (ImageResizeInvocation.image n)]
  | img_scale n => [image_name (ImageScaleInvocation.image n)]
  | img_lerp n => [image_name (ImageLerpInvocation.image n)]
  | img_ilerp n => [image_name (ImageInverseLerpInvocation.image n)]
  | img_nsfw n => [image_name (ImageNSFWBlurInvocation.image n)]
  | img_watermark n => [image_name (ImageWatermarkInvocation.image n)]
  end.

(** The first of a list of names that the service does not hold. *)
Definition first_missing (context : InvocationContext) (names : list string)
  : option string :=
  List.find (λ name, bool_decide (images context !! name = None)) names.

(** The two nodes that pass their image through. *)
Definition passes_through (node : Invocation) : bool :=
  match node with
  | load_image _ | show_image _ => true
  | _ => false
  end.

(** The [BaseInvocation] fields of a node, the category under which its
    [invoke] creates its image, and the metadata it hands over. *)
Definition base_of (node : Invocation) : BaseInvocation :=
  match node with
  | load_image n => LoadImageInvocation.base n
  | show_image n => ShowImageInvocation.base n
  | img_crop n => ImageCropInvocation.base n
  | img_paste n => ImagePasteInvocation.base n
  | tomask n => MaskFromAlphaInvocation.base n
  | img_mul n => ImageMultiplyInvocation.base n
  | img_chan n => ImageChannelInvocation.base n
  | img_conv n => ImageConvertInvocation.base n
  | img_blur n => ImageBlurInvocation.base n
  | img_resize n => ImageResizeInvocation.base n
  | img_scale n => ImageScaleInvocation.base n
  | img_lerp n => ImageLerpInvocation.base n
  | img_ilerp n => ImageInverseLerpInvocation.base n
  | img_nsfw n => ImageNSFWBlurInvocation.base n
  | img_watermark n => ImageWatermarkInvocation.base n
  end.

Definition category_of (node : Invocation) : ImageCategory :=
  match node with
  | tomask _ => MASK
  | _ => GENERAL
  end.

Definition metadata_of (node : Invocation) : option CoreMetadata :=
  match node with
  | img_nsfw n => ImageNSFWBlurInvocation.metadata n
  | img_watermark n => ImageWatermarkInvocation.metadata n
  | _ => None
  end.

(** The nodes whose output has the size of the image they read. *)
Definition keeps_size (node : Invocation) : bool :=
  match node with
  | img_crop _ | img_paste _ | img_mul _ | img_resize _ | img_scale _ => false
  | _ => true
  end.


(** A float32 that is a zero, of either sign. *)
Definition is_zero (x : numpy.float32) : bool :=
  match x with S754_zero _ => true | _ => false end.

(** ** Further concrete inputs *)

Module Cases.

Definition crop (x y width height : Z) : ImageCropInvocation.t :=
  {| ImageCropInvocation.base := Examples.node;
     ImageCropInvocation.image := {| image_name := "rgba" |};
     ImageCropInvocation.x := x;
     ImageCropInvocation.y := y;
     ImageCropInvocation.width := width;
     ImageCropInvocation.height := height |}.

(** A paste of the "RGBA" image over itself at [(x, y)], with or
    without the grey mask. *)
Definition paste (x y : Z) (mask : option ImageField) : ImagePasteInvocation.t :=
  {| ImagePasteInvocation.base := Examples.node;
     ImagePasteInvocation.base_image := {| image_name := "rgba" |};
     ImagePasteInvocation.image := {| image_name := "rgba" |};
     ImagePasteInvocation.mask := mask;
     ImagePasteInvocation.x := x;
     ImagePasteInvocation.y := y |}.

Definition channel (name : string) (c : IMAGE_CHANNELS) : ImageChannelInvocation.t :=
  {| ImageChannelInvocation.base := Examples.node;
     ImageChannelInvocation.image := {| image_name := name |};
     ImageChannelInvocation.channel := c |}.

Definition resize (width height : Z) (m : PIL_RESAMPLING_MODES)
  : ImageResizeInvocation.t :=
  {| ImageResizeInvocation.base := Examples.node;
     ImageResizeInvocation.image := {| image_name := "rgba" |};
     ImageResizeInvocation.width := width;
     ImageResizeInvocation.height := height;
     ImageResizeInvocation.resample_mode := m |}.

Definition lerp (min max : Z) : ImageLerpInvocation.t :=
  {| ImageLerpInvocation.base := Examples.node;
     ImageLerpInvocation.image := {| image_name := "grey" |};
     ImageLerpInvocation.min := min;
     ImageLerpInvocation.max := max |}.

Definition ilerp (min max : Z) : ImageInverseLerpInvocation.t :=
  {| ImageInverseLerpInvocation.base := Examples.node;
     ImageInverseLerpInvocation.image := {| image_name := "grey" |};
     ImageInverseLerpInvocation.min := min;
     ImageInverseLerpInvocation.max := max |}.

Definition multiply (name1 name2 : string) : ImageMultiplyInvocation.t :=
  {| ImageMultiplyInvocation.base := Examples.node;
     ImageMultiplyInvocation.image1 := {| image_name := name1 |};
     ImageMultiplyInvocation.image2 := {| image_name := name2 |} |}.

Definition nsfw : ImageNSFWBlurInvocation.t :=
  {| ImageNSFWBlurInvocation.base := Examples.node;
     ImageNSFWBlurInvocation.image := {| image_name := "rgba" |};
     ImageNSFWBlurInvocation.metadata := Some [("seed", "7")] |}.

(** An all-white and an all-black 2 by 1 grey image, beside the images
    of [Examples]. *)
Definition white : Image.t :=
  {| Image.mode := Image.L; Image.width := 2; Image.height := 1;
     Image.rows := [[[255]; [255]]] |}.

Definition black : Image.t :=
  {| Image.mode := Image.L; Image.width := 2; Image.height := 1;
     Image.rows := [[[0]; [0]]] |}.

Definition context : InvocationContext :=
  Examples.context_of
    [("grey", Examples.grey); ("white", white); ("black", black);
     ("dot", Examples.dot); ("rgb", Examples.rgb); ("rgba", Examples.rgba);
     ("matte", Examples.matte)].

(** A codec whose blur averages nothing (every pixel is kept), and a
    safety checker that flags every image. *)
Definition codec_blur : Image.Codec :=
  {| Image.ImagingConvert := Image.ImagingConvert (Codec := Examples.codec);
     Image.ImagingBlur := λ _ _ im,
       Some (λ x y, default [] (Image.pixel_at (Image.rows im) x y));
     Image.ImagingResample := Image.ImagingResample (Codec := Examples.codec) |}.

Definition backend_flagging : Backend :=
  {| has_nsfw_concept := λ _, Ok true;
     watermark_pixels := watermark_pixels (Backend := Examples.backend);
     caution_png := caution_png (Backend := Examples.backend) |}.

Definition mask_of (name : string) (invert : bool) : MaskFromAlphaInvocation.t :=
  {| MaskFromAlphaInvocation.base := Examples.node;
     MaskFromAlphaInvocation.image := {| image_name := name |};
     MaskFromAlphaInvocation.invert := invert |}.

End Cases.
(** * Properties *)

(** ** Buffers *)

Lemma pixel_at_tabulate (w h : Z) (f : Z → Z → Image.Pixel) (x y : Z) :
  0 ≤ x < w → 0 ≤ y < h →
  Image.pixel_at (Image.tabulate w h f) x y = Some (f x y).
Proof.
  intros Hx Hy. unfold Image.pixel_at, Image.tabulate.
  rewrite bool_decide_eq_true_2 by lia.
  rewrite list_lookup_fmap, lookup_seqZ_lt by lia. simpl.
  rewrite list_lookup_fmap, lookup_seqZ_lt by lia. simpl.
  f_equal. f_equal; lia.
Qed.

Lemma pixel_at_map_pixels (f : Image.Pixel → Image.Pixel) rs (x y : Z) :
  Image.pixel_at (Image.map_pixels f rs) x y = f <$> Image.pixel_at rs x y.
Proof.
  unfold Image.pixel_at, Image.map_pixels.
  case_bool_decide; [|done].
  change (List.map (List.map f) rs) with (List.map f <$> rs).
  rewrite list_lookup_fmap.
  destruct (rs !! Z.to_nat y) as [r|]; simpl; [|done].
  change (List.map f r) with (f <$> r). by rewrite list_lookup_fmap.
Qed.

(** ** Checking a property on every value of a range *)

Lemma forallb_seqZ (P : Z → bool) (lo n : Z) :
  forallb P (seqZ lo n) = true → ∀ v, lo ≤ v < lo + n → P v = true.
Proof.
  intros H v Hv. rewrite forallb_forall in H.
  apply H, list_elem_of_In, elem_of_seqZ. lia.
Qed.

Lemma enumerate1 (P : Z → bool) (lo hi : Z) :
  forallb P (seqZ lo (hi - lo + 1)) = true →
  ∀ a, lo ≤ a ≤ hi → P a = true.
Proof. intros Hall a Ha. apply (forallb_seqZ _ _ _ Hall). lia. Qed.

Lemma enumerate2 (P : Z → Z → bool) (lo1 hi1 lo2 hi2 : Z) :
  forallb (λ a, forallb (P a) (seqZ lo2 (hi2 - lo2 + 1)))
    (seqZ lo1 (hi1 - lo1 + 1)) = true →
  ∀ a b, lo1 ≤ a ≤ hi1 → lo2 ≤ b ≤ hi2 → P a b = true.
Proof.
  intros Hall a b Ha Hb.
  assert (forallb (P a) (seqZ lo2 (hi2 - lo2 + 1)) = true) as Hrow.
  { apply (forallb_seqZ _ _ _ Hall). lia. }
  apply (forallb_seqZ _ _ _ Hrow). lia.
Qed.

Lemma float_eqb_eq (x y : spec_float) : float_eqb x y = true → x = y.
Proof. apply bool_decide_eq_true_1. Qed.

(** ** The result monad *)

Lemma bind_Ok {A B : Type} (f : A → result B) (a : A) : Ok a ≫= f = f a.
Proof. reflexivity. Qed.

Lemma bind_Raise {A B : Type} (f : A → result B) (e : exn) :
  Raise e ≫= f = Raise e.
Proof. reflexivity. Qed.

(** ** The store *)

Lemma get_pil_image_stored context name im :
  stored context name = Some im →
  ImageService.get_pil_image context name = Ok im.
Proof.
  unfold stored, ImageService.get_pil_image.
  destruct (images context !! name); simpl; congruence.
Qed.

Lemma stored_create context im o c n s i m :
  stored (ImageService.create context im o c n s i m).2
         (dto_image_name (ImageService.create context im o c n s i m).1) = Some im.
Proof. unfold stored, ImageService.create. simpl. by rewrite lookup_insert_eq. Qed.

(** ** Elementwise nodes: arrays from and to images *)

Lemma map_map (A B C : Type) (f : A → B) (g : B → C) (a : numpy.ndarray A) :
  numpy.map g (numpy.map f a) = numpy.map (λ e, g (f e)) a.
Proof.
  unfold numpy.map. simpl. f_equal.
  rewrite List.map_map. apply List.map_ext. intros r.
  rewrite List.map_map. apply List.map_ext. intros p.
  apply List.map_map.
Qed.

Lemma fromarray_map_asarray (g : numpy.float32 → Z) (im : Image.t) :
  ImageNumpy.fromarray
    (numpy.map g (numpy.asarray (ImageNumpy.array_interface im)))
  = Ok {| Image.mode := array_mode (Image.mode im);
          Image.width := Image.width im;
          Image.height := Image.height im;
          Image.rows :=
            Image.map_pixels (List.map (λ v, g (element (Image.mode im) v)))
              (Image.rows im) |}.
Proof.
  unfold numpy.asarray. rewrite map_map.
  unfold ImageNumpy.fromarray, ImageNumpy.array_interface, array_mode, element.
  destruct (Image.mode im); reflexivity.
Qed.

Lemma sample_at_map (h : Z → Z) (im res : Image.t) (x y : Z) (k : nat) (v : Z) :
  Image.rows res = Image.map_pixels (List.map h) (Image.rows im) →
  sample_at im x y k = Some v →
  sample_at res x y k = Some (h v).
Proof.
  unfold sample_at. intros -> Hv. rewrite pixel_at_map_pixels.
  destruct (Image.pixel_at (Image.rows im) x y) as [p|]; simpl in *; [|done].
  transitivity (h <$> p !! k); [apply (list_lookup_fmap h p k)|].
  by rewrite Hv.
Qed.

(** ** InverseLerp and Lerp, element by element *)

Lemma element_uint8 (m : Image.Mode) (v : Z) :
  Image.is_uint8 m = true → element m v = numpy.float32_of_int v.
Proof. by destruct m. Qed.

Lemma maximum_subtract_bytes (v m : Z) :
  0 ≤ v ≤ 255 → 0 ≤ m ≤ 255 →
  numpy.maximum (numpy.subtract (numpy.float32_of_int v) (numpy.float32_of_int m))
    (numpy.float32_of_int 0)
  = numpy.float32_of_int (Z.max (v - m) 0).
Proof.
  intros Hv Hm. apply float_eqb_eq. revert v m Hv Hm.
  apply (enumerate2 (λ v m, float_eqb
      (numpy.maximum (numpy.subtract (numpy.float32_of_int v) (numpy.float32_of_int m))
        (numpy.float32_of_int 0))
      (numpy.float32_of_int (Z.max (v - m) 0))) 0 255 0 255).
  vm_compute. reflexivity.
Qed.

Lemma divisor_small (d : Z) :
  -255 ≤ d ≤ 255 →
  ∃ D, Py.float_of_int d = Ok D ∧ numpy.float32_of_float D = numpy.float32_of_int d.
Proof.
  intros Hd.
  pose proof (enumerate1 (λ d, match Py.float_of_int d with
      | Ok D => float_eqb (numpy.float32_of_float D) (numpy.float32_of_int d)
      | Raise _ => false
      end) (-255) 255) as Hall.
  specialize (Hall ltac:(vm_compute; reflexivity) d Hd). simpl in Hall.
  destruct (Py.float_of_int d) as [D|]; [|done].
  exists D. split; [done|]. by apply float_eqb_eq.
Qed.

Lemma quotient_by_zero_is_255 (n : Z) :
  1 ≤ n ≤ 255 →
  numpy.uint8 (numpy.multiply
     (numpy.minimum (numpy.divide (numpy.float32_of_int n) (numpy.float32_of_int 0))
        (numpy.float32_of_int 1))
     (numpy.float32_of_int 255)) = 255.
Proof.
  intros Hn. apply Z.eqb_eq. revert n Hn.
  apply (enumerate1 (λ n, numpy.uint8 (numpy.multiply
     (numpy.minimum (numpy.divide (numpy.float32_of_int n) (numpy.float32_of_int 0))
        (numpy.float32_of_int 1))
     (numpy.float32_of_int 255)) =? 255) 1 255).
  vm_compute. reflexivity.
Qed.


(** What [ilerp] computes on a byte, in terms of the clamped difference
    and of the integer divisor. *)
Lemma ilerp_byte (self : ImageInverseLerpInvocation.t) (D : Py.float) (v : Z) :
  ImageInverseLerpInvocation.validate self = true →
  Py.float_of_int (ImageInverseLerpInvocation.max self - ImageInverseLerpInvocation.min self) = Ok D →
  0 ≤ v ≤ 255 →
  ImageInverseLerpInvocation.ilerp self D (numpy.float32_of_int v)
  = numpy.multiply
      (numpy.minimum
         (numpy.divide
            (numpy.float32_of_int (Z.max (v - ImageInverseLerpInvocation.min self) 0))
            (numpy.float32_of_int
               (ImageInverseLerpInvocation.max self - ImageInverseLerpInvocation.min self)))
         (numpy.float32_of_int 1))
      (numpy.float32_of_int 255).
Proof.
  unfold ImageInverseLerpInvocation.validate, ImageInverseLerpInvocation.ilerp.
  intros Hval HD Hv.
  destruct (divisor_small (ImageInverseLerpInvocation.max self - ImageInverseLerpInvocation.min self))
    as (D' & HD' & Hf); [lia|].
  rewrite HD in HD'. injection HD' as <-.
  rewrite maximum_subtract_bytes, Hf by lia. reflexivity.
Qed.

Lemma inverse_lerp_invoke (self : ImageInverseLerpInvocation.t)
    (context : InvocationContext) (im : Image.t) (D : Py.float) :
  stored context (image_name (ImageInverseLerpInvocation.image self)) = Some im →
  Py.float_of_int (ImageInverseLerpInvocation.max self - ImageInverseLerpInvocation.min self) = Ok D →
  ImageInverseLerpInvocation.invoke self context =
    let r := ImageService.create context
               {| Image.mode := array_mode (Image.mode im);
                  Image.width := Image.width im;
                  Image.height := Image.height im;
                  Image.rows :=
                    Image.map_pixels
                      (List.map (λ v, numpy.uint8
                         (ImageInverseLerpInvocation.ilerp self D (element (Image.mode im) v))))
                      (Image.rows im) |}
               INTERNAL GENERAL (id (ImageInverseLerpInvocation.base self))
               (graph_execution_state_id context)
               (is_intermediate (ImageInverseLerpInvocation.base self)) None in
    Ok (image_output r.1, r.2).
Proof.
  intros Him HD. unfold ImageInverseLerpInvocation.invoke.
  rewrite (get_pil_image_stored _ _ _ Him). simpl.
  rewrite HD. simpl. rewrite map_map, fromarray_map_asarray. reflexivity.
Qed.

(** C1 (as stated, refuted): on a 2 by 1 grey image with [min = max = 100]
    InverseLerp raises no division error; it returns an output, in which
    the sample 200 has become 255. *)
Lemma inverse_lerp_equal_bounds_returns :
  let self := {| ImageInverseLerpInvocation.base := Examples.node;
                 ImageInverseLerpInvocation.image := {| image_name := "grey" |};
                 ImageInverseLerpInvocation.min := 100;
                 ImageInverseLerpInvocation.max := 100 |} in
  (∀ msg, ImageInverseLerpInvocation.invoke self Examples.context
          ≠ Raise (ZeroDivisionError msg))
  ∧ Py.is_ok (ImageInverseLerpInvocation.invoke self Examples.context) = true
  ∧ ∃ out context' res,
      ImageInverseLerpInvocation.invoke self Examples.context = Ok (out, context')
      ∧ stored context' (image_name (ImageOutput.image out)) = Some res
      ∧ sample_at Examples.grey 0 0 0 = Some 200
      ∧ sample_at res 0 0 0 = Some 255.
Proof.
  intros self.
  assert (∃ out context' res,
      ImageInverseLerpInvocation.invoke self Examples.context = Ok (out, context')
      ∧ stored context' (image_name (ImageOutput.image out)) = Some res
      ∧ sample_at Examples.grey 0 0 0 = Some 200
      ∧ sample_at res 0 0 0 = Some 255) as Hret.
  { eexists _, _, _. split; [vm_compute; reflexivity|].
    split; [vm_compute; reflexivity|]. split; reflexivity. }
  split; [|split; [vm_compute; reflexivity|exact Hret]].
  intros msg Hraise. destruct Hret as (out & context' & res & Hok & _).
  rewrite Hok in Hraise. discriminate.
Qed.

(** C1 (amended): with [min = max = m], InverseLerp raises no error.  It
    returns an output of the source's size, and in it every 8-bit sample
    above [m] has become 255. *)
Theorem inverse_lerp_equal_bounds (self : ImageInverseLerpInvocation.t)
    (context : InvocationContext) (im : Image.t) :
  stored context (image_name (ImageInverseLerpInvocation.image self)) = Some im →
  ImageInverseLerpInvocation.validate self = true →
  ImageInverseLerpInvocation.max self = ImageInverseLerpInvocation.min self →
  ∃ out context' res,
    ImageInverseLerpInvocation.invoke self context = Ok (out, context')
    ∧ stored context' (image_name (ImageOutput.image out)) = Some res
    ∧ ImageOutput.width out = Image.width im
    ∧ ImageOutput.height out = Image.height im
    ∧ Image.width res = Image.width im
    ∧ Image.height res = Image.height im
    ∧ ∀ x y k v,
        Image.is_uint8 (Image.mode im) = true →
        sample_at im x y k = Some v →
        ImageInverseLerpInvocation.min self < v ≤ 255 →
        sample_at res x y k = Some 255.
Proof.
  intros Him Hval Heq.
  destruct (divisor_small (ImageInverseLerpInvocation.max self - ImageInverseLerpInvocation.min self))
    as (D & HD & _); [lia|].
  rewrite (inverse_lerp_invoke self context im D Him HD). cbv zeta.
  eexists _, _, _. split; [reflexivity|].
  split; [apply stored_create|].
  do 4 (split; [reflexivity|]).
  intros x y k v Hmode Hv Hrange.
  erewrite sample_at_map; [|reflexivity|exact Hv]. f_equal.
  rewrite element_uint8 by done.
  unfold ImageInverseLerpInvocation.validate in Hval.
  rewrite ilerp_byte by (done || lia).
  rewrite Heq, Z.sub_diag, Z.max_l by lia.
  apply quotient_by_zero_is_255. lia.
Qed.

Lemma inverse_lerp_equal_bounds_witness :
  ∃ out context' res,
    ImageInverseLerpInvocation.invoke
      {| ImageInverseLerpInvocation.base := Examples.node;
         ImageInverseLerpInvocation.image := {| image_name := "grey" |};
         ImageInverseLerpInvocation.min := 100;
         ImageInverseLerpInvocation.max := 100 |} Examples.context = Ok (out, context')
    ∧ stored context' (image_name (ImageOutput.image out)) = Some res
    ∧ ImageOutput.width out = 2
    ∧ ImageOutput.height out = 1
    ∧ Image.width res = 2
    ∧ Image.height res = 1
    ∧ ∀ x y k v,
        Image.is_uint8 Image.L = true →
        sample_at Examples.grey x y k = Some v →
        100 < v ≤ 255 →
        sample_at res x y k = Some 255.
Proof.
  apply (inverse_lerp_equal_bounds
           {| ImageInverseLerpInvocation.base := Examples.node;
              ImageInverseLerpInvocation.image := {| image_name := "grey" |};
              ImageInverseLerpInvocation.min := 100;
              ImageInverseLerpInvocation.max := 100 |} Examples.context Examples.grey);
    reflexivity.
Defined.




(** ** Lerp *)

Lemma lerp_invoke (self : ImageLerpInvocation.t)
    (context : InvocationContext) (im : Image.t) :
  stored context (image_name (ImageLerpInvocation.image self)) = Some im →
  ImageLerpInvocation.invoke self context =
    let r := ImageService.create context
               {| Image.mode := array_mode (Image.mode im);
                  Image.width := Image.width im;
                  Image.height := Image.height im;
                  Image.rows :=
                    Image.map_pixels
                      (List.map (λ v, numpy.uint8
                         (ImageLerpInvocation.lerp self (element (Image.mode im) v))))
                      (Image.rows im) |}
               INTERNAL GENERAL (id (ImageLerpInvocation.base self))
               (graph_execution_state_id context)
               (is_intermediate (ImageLerpInvocation.base self)) None in
    Ok (image_output r.1, r.2).
Proof.
  intros Him. unfold ImageLerpInvocation.invoke.
  rewrite (get_pil_image_stored _ _ _ Him). simpl.
  rewrite !map_map, fromarray_map_asarray. reflexivity.
Qed.

(** C2 (as stated, refuted): with the default [min = 0], [max = 255] the
    value computed for the sample [v] is [v + 255], above 255 for every
    [v >= 1], and it is converted without saturation: the 2 by 1 grey
    image with samples 200 and 50 comes out as 199 and 49, where a
    saturating conversion gives 255. *)
Lemma lerp_does_not_saturate :
  let self := {| ImageLerpInvocation.base := Examples.node;
                 ImageLerpInvocation.image := {| image_name := "grey" |};
                 ImageLerpInvocation.min := 0;
                 ImageLerpInvocation.max := 255 |} in
  ImageLerpInvocation.validate self = true
  ∧ (∀ v, 0 ≤ v ≤ 255 →
       ImageLerpInvocation.lerp self (numpy.float32_of_int v)
       = numpy.float32_of_int (v + 255))
  ∧ numpy.saturate_uint8 (ImageLerpInvocation.lerp self (numpy.float32_of_int 200)) = 255
  ∧ ∃ out context' res,
      ImageLerpInvocation.invoke self Examples.context = Ok (out, context')
      ∧ stored context' (image_name (ImageOutput.image out)) = Some res
      ∧ sample_at Examples.grey 0 0 0 = Some 200
      ∧ sample_at res 0 0 0 = Some 199
      ∧ sample_at res 0 0 0
        ≠ Some (numpy.saturate_uint8
                  (ImageLerpInvocation.lerp self (numpy.float32_of_int 200))).
Proof.
  intros self. split; [reflexivity|]. split.
  { intros v Hv. apply float_eqb_eq. revert v Hv.
    apply (enumerate1 (λ v, float_eqb
             (ImageLerpInvocation.lerp self (numpy.float32_of_int v))
             (numpy.float32_of_int (v + 255))) 0 255).
    vm_compute. reflexivity. }
  split; [vm_compute; reflexivity|].
  eexists _, _, _. split; [vm_compute; reflexivity|].
  split; [vm_compute; reflexivity|].
  split; [reflexivity|]. split; [reflexivity|].
  vm_compute. discriminate.
Qed.

(** C2 (amended): Lerp computes for each 8-bit sample the float32 value
    [normalize(input) * (max - min) + max], [normalize] dividing by 255,
    and stores its conversion to [uint8]; there is no saturation step.
    Whenever the integer part of the value is in [0, 255], that integer
    part is what is stored. *)
Theorem lerp_formula_then_cast (self : ImageLerpInvocation.t)
    (context : InvocationContext) (im : Image.t) :
  stored context (image_name (ImageLerpInvocation.image self)) = Some im →
  ∃ out context' res,
    ImageLerpInvocation.invoke self context = Ok (out, context')
    ∧ stored context' (image_name (ImageOutput.image out)) = Some res
    ∧ ImageOutput.width out = Image.width im
    ∧ ImageOutput.height out = Image.height im
    ∧ Image.width res = Image.width im
    ∧ Image.height res = Image.height im
    ∧ ∀ x y k v,
        Image.is_uint8 (Image.mode im) = true →
        sample_at im x y k = Some v →
        let value :=
          numpy.add
            (numpy.multiply
               (numpy.divide (numpy.float32_of_int v) (numpy.float32_of_int 255))
               (numpy.float32_of_int
                  (ImageLerpInvocation.max self - ImageLerpInvocation.min self)))
            (numpy.float32_of_int (ImageLerpInvocation.max self)) in
        sample_at res x y k = Some (numpy.uint8 value)
        ∧ ∀ z, numpy.trunc value = Some z → 0 ≤ z ≤ 255 →
               sample_at res x y k = Some z.
Proof.
  intros Him.
  rewrite (lerp_invoke self context im Him). cbv zeta.
  eexists _, _, _. split; [reflexivity|].
  split; [apply stored_create|].
  do 4 (split; [reflexivity|]).
  intros x y k v Hmode Hv.
  erewrite sample_at_map; [|reflexivity|exact Hv]. cbv beta.
  rewrite element_uint8 by done.
  split; [reflexivity|].
  intros z Hz Hrange. f_equal.
  unfold ImageLerpInvocation.lerp, numpy.uint8. rewrite Hz.
  rewrite bool_decide_eq_true_2 by lia.
  apply Z.mod_small. lia.
Qed.

Lemma lerp_formula_then_cast_witness :
  ∃ out context' res,
    ImageLerpInvocation.invoke
      {| ImageLerpInvocation.base := Examples.node;
         ImageLerpInvocation.image := {| image_name := "grey" |};
         ImageLerpInvocation.min := 10;
         ImageLerpInvocation.max := 20 |} Examples.context = Ok (out, context')
    ∧ stored context' (image_name (ImageOutput.image out)) = Some res
    ∧ ImageOutput.width out = 2
    ∧ ImageOutput.height out = 1
    ∧ Image.width res = 2
    ∧ Image.height res = 1
    ∧ ∀ x y k v,
        Image.is_uint8 Image.L = true →
        sample_at Examples.grey x y k = Some v →
        let value :=
          numpy.add
            (numpy.multiply
               (numpy.divide (numpy.float32_of_int v) (numpy.float32_of_int 255))
               (numpy.float32_of_int (20 - 10)))
            (numpy.float32_of_int 20) in
        sample_at res x y k = Some (numpy.uint8 value)
        ∧ ∀ z, numpy.trunc value = Some z → 0 ≤ z ≤ 255 →
               sample_at res x y k = Some z.
Proof.
  apply (lerp_formula_then_cast
           {| ImageLerpInvocation.base := Examples.node;
              ImageLerpInvocation.image := {| image_name := "grey" |};
              ImageLerpInvocation.min := 10;
              ImageLerpInvocation.max := 20 |} Examples.context Examples.grey).
  reflexivity.
Defined.

(** ** Well-formed images *)

Lemma valid_pixel (im : Image.t) (x y : Z) (p : Image.Pixel) :
  Image.valid im = true →
  Image.pixel_at (Image.rows im) x y = Some p →
  length p = Image.bands (Image.mode im)
  ∧ ∀ k v, p !! k = Some v → Image.sample_ok (Image.mode im) v = true.
Proof.
  unfold Image.valid, Image.pixel_at. intros Hvalid Hp.
  apply andb_prop in Hvalid as [_ Hrows].
  case_bool_decide; [|done].
  destruct (Image.rows im !! Z.to_nat y) as [r|] eqn:Hr; simpl in Hp; [|done].
  rewrite forallb_forall in Hrows.
  specialize (Hrows r). rewrite <- list_elem_of_In in Hrows.
  specialize (Hrows (list_elem_of_lookup_2 _ _ _ Hr)).
  apply andb_prop in Hrows as [_ Hpix].
  rewrite forallb_forall in Hpix.
  specialize (Hpix p). rewrite <- list_elem_of_In in Hpix.
  specialize (Hpix (list_elem_of_lookup_2 _ _ _ Hp)).
  apply andb_prop in Hpix as [Hlen Hsamples].
  split; [by apply Nat.eqb_eq|].
  intros k v Hv. rewrite forallb_forall in Hsamples.
  apply Hsamples, list_elem_of_In, (list_elem_of_lookup_2 _ _ _ Hv).
Qed.

Lemma sample_ok_uint8 (m : Image.Mode) (v : Z) :
  Image.is_uint8 m = true → Image.sample_ok m v = true → 0 ≤ v ≤ 255.
Proof. unfold Image.sample_ok. intros ->. lia. Qed.

(** ** MaskFromAlpha *)

Lemma lut_lookup (a : Z) :
  0 ≤ a ≤ 255 → ImageOps.lut !! Z.to_nat a = Some (255 - a).
Proof.
  intros Ha. unfold ImageOps.lut.
  rewrite list_lookup_fmap, lookup_seqZ_lt by lia. simpl. f_equal. lia.
Qed.

(** The last band of an image with 8-bit bands: a mode "L" image of the
    same size that holds the last sample of every pixel. *)
Lemma last_band_spec (im : Image.t) :
  Image.is_uint8 (Image.mode im) = true →
  ∃ band,
    MaskFromAlphaInvocation.last_band im = Ok band
    ∧ Image.mode band = Image.L
    ∧ Image.width band = Image.width im
    ∧ Image.height band = Image.height im
    ∧ ∀ x y p,
        Image.pixel_at (Image.rows im) x y = Some p →
        length p = Image.bands (Image.mode im) →
        ∃ a, last p = Some a ∧ Image.pixel_at (Image.rows band) x y = Some [a].
Proof.
  intros Hmode.
  unfold MaskFromAlphaInvocation.last_band, Image.split.
  destruct (Image.mode im) eqn:Hm; try discriminate; simpl;
    eexists; (split; [reflexivity|]); simpl;
    (split; [done|]); (split; [done|]); (split; [done|]);
    intros x y p Hp Hlen;
    try rewrite pixel_at_map_pixels; rewrite Hp; simpl;
    repeat (destruct p as [|? p]; try discriminate);
    eexists; split; reflexivity.
Qed.

(** [ImageOps.invert] on a mode "L" image replaces every sample [a] by
    [255 - a]. *)
Lemma invert_L_spec (band : Image.t) :
  Image.mode band = Image.L →
  ∃ inv,
    ImageOps.invert band = Ok inv
    ∧ Image.mode inv = Image.L
    ∧ Image.width inv = Image.width band
    ∧ Image.height inv = Image.height band
    ∧ ∀ x y a,
        Image.pixel_at (Image.rows band) x y = Some [a] →
        0 ≤ a ≤ 255 →
        Image.pixel_at (Image.rows inv) x y = Some [255 - a].
Proof.
  intros Hmode. unfold ImageOps.invert. rewrite Hmode.
  eexists. split; [reflexivity|]. simpl.
  do 3 (split; [done|]).
  intros x y a Hp Ha. rewrite pixel_at_map_pixels, Hp. simpl.
  change (256 * 0 + Z.to_nat a)%nat with (Z.to_nat a).
  by rewrite lut_lookup.
Qed.

Lemma tomask_spec (self : MaskFromAlphaInvocation.t)
    (context : InvocationContext) (im : Image.t) :
  stored context (image_name (MaskFromAlphaInvocation.image self)) = Some im →
  Image.is_uint8 (Image.mode im) = true →
  ∃ res,
    MaskFromAlphaInvocation.invoke self context =
      (let r := ImageService.create context res INTERNAL MASK
                  (id (MaskFromAlphaInvocation.base self))
                  (graph_execution_state_id context)
                  (is_intermediate (MaskFromAlphaInvocation.base self)) None in
       Ok (mask_output r.1, r.2))
    ∧ Image.mode res = Image.L
    ∧ Image.width res = Image.width im
    ∧ Image.height res = Image.height im
    ∧ ∀ x y p,
        Image.pixel_at (Image.rows im) x y = Some p →
        length p = Image.bands (Image.mode im) →
        (∀ k v, p !! k = Some v → 0 ≤ v ≤ 255) →
        ∃ a, last p = Some a
             ∧ Image.pixel_at (Image.rows res) x y
               = Some [if MaskFromAlphaInvocation.invert self then 255 - a else a].
Proof.
  intros Him Hmode. unfold MaskFromAlphaInvocation.invoke.
  rewrite (get_pil_image_stored _ _ _ Him). simpl.
  destruct (last_band_spec im Hmode) as (band & -> & HbL & Hbw & Hbh & Hband). simpl.
  destruct (MaskFromAlphaInvocation.invert self).
  - destruct (invert_L_spec band HbL) as (inv & -> & HiL & Hiw & Hih & Hinv). simpl.
    exists inv. split; [reflexivity|].
    split; [done|]. split; [congruence|]. split; [congruence|].
    intros x y p Hp Hlen Hrange.
    destruct (Hband x y p Hp Hlen) as (a & Ha & Hpa).
    exists a. split; [done|]. apply Hinv; [done|].
    rewrite last_lookup in Ha. eauto.
  - exists band. split; [reflexivity|].
    split; [done|]. split; [done|]. split; [done|].
    intros x y p Hp Hlen _. eauto.
Qed.




(** C9: for a well-formed source with an alpha band ("RGBA" or "LA"),
    MaskFromAlpha with [invert] set, applied to the source and then to
    the mask it returned, yields a mask whose value at every pixel is the
    source's alpha there. *)
Theorem mask_from_alpha_double_inversion (first : MaskFromAlphaInvocation.t)
    (second : BaseInvocation) (context : InvocationContext) (im : Image.t) :
  stored context (image_name (MaskFromAlphaInvocation.image first)) = Some im →
  Image.valid im = true →
  Image.mode im = Image.RGBA ∨ Image.mode im = Image.LA →
  MaskFromAlphaInvocation.invert first = true →
  ∃ out1 context1 out2 context2 res,
    MaskFromAlphaInvocation.invoke first context = Ok (out1, context1)
    ∧ MaskFromAlphaInvocation.invoke
        {| MaskFromAlphaInvocation.base := second;
           MaskFromAlphaInvocation.image := MaskOutput.mask out1;
           MaskFromAlphaInvocation.invert := true |} context1 = Ok (out2, context2)
    ∧ stored context2 (image_name (MaskOutput.mask out2)) = Some res
    ∧ Image.mode res = Image.L
    ∧ Image.width res = Image.width im
    ∧ Image.height res = Image.height im
    ∧ ∀ x y p,
        Image.pixel_at (Image.rows im) x y = Some p →
        ∃ alpha, last p = Some alpha
                 ∧ Image.pixel_at (Image.rows res) x y = Some [alpha].
Proof.
  intros Him Hvalid Halpha Hinv1.
  assert (Image.is_uint8 (Image.mode im) = true) as Hmode
    by (destruct Halpha as [-> | ->]; reflexivity).
  destruct (tomask_spec first context im Him Hmode)
    as (res1 & Hrun1 & HL1 & Hw1 & Hh1 & Hpix1).
  rewrite Hinv1 in Hpix1. cbv zeta in Hrun1.
  set (r1 := ImageService.create context res1 INTERNAL MASK
               (id (MaskFromAlphaInvocation.base first))
               (graph_execution_state_id context)
               (is_intermediate (MaskFromAlphaInvocation.base first)) None) in *.
  assert (stored r1.2 (image_name (MaskOutput.mask (mask_output r1.1))) = Some res1)
    as Hstored1 by apply stored_create.
  set (again := {| MaskFromAlphaInvocation.base := second;
                   MaskFromAlphaInvocation.image := MaskOutput.mask (mask_output r1.1);
                   MaskFromAlphaInvocation.invert := true |}).
  destruct (tomask_spec again r1.2 res1 Hstored1)
    as (res2 & Hrun2 & HL2 & Hw2 & Hh2 & Hpix2); [by rewrite HL1|].
  cbv zeta in Hrun2.
  eexists (mask_output r1.1), r1.2, _, _, res2.
  split; [exact Hrun1|]. split; [exact Hrun2|].
  split; [apply stored_create|].
  split; [done|]. split; [congruence|]. split; [congruence|].
  intros x y p Hp.
  destruct (valid_pixel im x y p Hvalid Hp) as [Hlen Hok].
  assert (∀ k v, p !! k = Some v → 0 ≤ v ≤ 255) as Hrange.
  { intros k v Hv. eapply sample_ok_uint8; eauto. }
  destruct (Hpix1 x y p Hp Hlen Hrange) as (a & Ha & Hpa).
  assert (0 ≤ a ≤ 255) as Hbyte.
  { rewrite last_lookup in Ha. eauto. }
  exists a. split; [done|].
  destruct (Hpix2 x y [255 - a] Hpa) as (a' & Ha' & Hres).
  - by rewrite HL1.
  - intros [|k] v Hv; simpl in Hv; [|done]. injection Hv as <-. lia.
  - simpl in Ha'. injection Ha' as <-. simpl in Hres.
    rewrite Hres. do 2 f_equal. lia.
Qed.

Lemma mask_from_alpha_double_inversion_witness :
  ∃ out1 context1 out2 context2 res,
    MaskFromAlphaInvocation.invoke
      {| MaskFromAlphaInvocation.base := Examples.node;
         MaskFromAlphaInvocation.image := {| image_name := "rgba" |};
         MaskFromAlphaInvocation.invert := true |} Examples.context = Ok (out1, context1)
    ∧ MaskFromAlphaInvocation.invoke
        {| MaskFromAlphaInvocation.base := Examples.node;
           MaskFromAlphaInvocation.image := MaskOutput.mask out1;
           MaskFromAlphaInvocation.invert := true |} context1 = Ok (out2, context2)
    ∧ stored context2 (image_name (MaskOutput.mask out2)) = Some res
    ∧ Image.mode res = Image.L
    ∧ Image.width res = 2
    ∧ Image.height res = 2
    ∧ ∀ x y p,
        Image.pixel_at (Image.rows Examples.rgba) x y = Some p →
        ∃ alpha, last p = Some alpha
                 ∧ Image.pixel_at (Image.rows res) x y = Some [alpha].
Proof.
  apply (mask_from_alpha_double_inversion
           {| MaskFromAlphaInvocation.base := Examples.node;
              MaskFromAlphaInvocation.image := {| image_name := "rgba" |};
              MaskFromAlphaInvocation.invert := true |}
           Examples.node Examples.context Examples.rgba);
    [reflexivity | reflexivity | left; reflexivity | reflexivity].
Defined.

Lemma valid_pixel_bounds (im : Image.t) (x y : Z) (p : Image.Pixel) :
  Image.valid im = true →
  Image.pixel_at (Image.rows im) x y = Some p →
  0 ≤ x < Image.width im ∧ 0 ≤ y < Image.height im.
Proof.
  unfold Image.valid, Image.pixel_at. intros Hvalid Hp.
  apply andb_prop in Hvalid as [Hvalid Hrows].
  apply andb_prop in Hvalid as [_ Hheight].
  case_bool_decide; [|done].
  destruct (Image.rows im !! Z.to_nat y) as [r|] eqn:Hr; simpl in Hp; [|done].
  rewrite forallb_forall in Hrows.
  specialize (Hrows r). rewrite <- list_elem_of_In in Hrows.
  specialize (Hrows (list_elem_of_lookup_2 _ _ _ Hr)).
  apply andb_prop in Hrows as [Hwidth _].
  apply Z.eqb_eq in Hheight, Hwidth.
  apply lookup_lt_Some in Hr, Hp. unfold Image.Pixel in *. lia.
Qed.

(** ** Multiply *)

Lemma CHOP_product (a b : Z) :
  0 ≤ a ≤ 255 → 0 ≤ b ≤ 255 →
  ImageChops.CHOP (a * b ÷ 255) = (a * b) `div` 255.
Proof.
  intros Ha Hb. rewrite Z.quot_div_nonneg by nia.
  assert (0 ≤ (a * b) `div` 255 ≤ 255) as Hq.
  { split; [apply Z.div_pos; nia|].
    apply Z.div_le_upper_bound; nia. }
  unfold ImageChops.CHOP.
  destruct (Z.leb_spec ((a * b) `div` 255) 0); [lia|].
  destruct (Z.leb_spec 255 ((a * b) `div` 255)); lia.
Qed.

Lemma multiply_invoke (self : ImageMultiplyInvocation.t)
    (context : InvocationContext) (im1 im2 : Image.t) :
  stored context (image_name (ImageMultiplyInvocation.image1 self)) = Some im1 →
  stored context (image_name (ImageMultiplyInvocation.image2 self)) = Some im2 →
  Image.is_uint8 (Image.mode im1) = true →
  Image.is_uint8 (Image.mode im2) = true →
  Image.bands (Image.mode im1) = Image.bands (Image.mode im2) →
  ImageMultiplyInvocation.invoke self context =
    let w := Z.min (Image.width im1) (Image.width im2) in
    let h := Z.min (Image.height im1) (Image.height im2) in
    let r := ImageService.create context
               {| Image.mode := Image.mode im1;
                  Image.width := w;
                  Image.height := h;
                  Image.rows := Image.tabulate w h (λ x y,
                    zip_with (λ in1 in2, ImageChops.CHOP (in1 * in2 ÷ 255))
                      (default [] (Image.pixel_at (Image.rows im1) x y))
                      (default [] (Image.pixel_at (Image.rows im2) x y))) |}
               INTERNAL GENERAL (id (ImageMultiplyInvocation.base self))
               (graph_execution_state_id context)
               (is_intermediate (ImageMultiplyInvocation.base self)) None in
    Ok (image_output r.1, r.2).
Proof.
  intros Him1 Him2 Hm1 Hm2 Hbands. unfold ImageMultiplyInvocation.invoke.
  rewrite (get_pil_image_stored _ _ _ Him1), (get_pil_image_stored _ _ _ Him2). simpl.
  unfold ImageChops.multiply. rewrite Hm1, Hm2, Hbands, Nat.eqb_refl. simpl.
  replace (if Image.width im1 <? Image.width im2 then Image.width im1 else Image.width im2)
    with (Z.min (Image.width im1) (Image.width im2))
    by (destruct (Z.ltb_spec (Image.width im1) (Image.width im2)); lia).
  replace (if Image.height im1 <? Image.height im2 then Image.height im1 else Image.height im2)
    with (Z.min (Image.height im1) (Image.height im2))
    by (destruct (Z.ltb_spec (Image.height im1) (Image.height im2)); lia).
  reflexivity.
Qed.

(** C4 (as stated, refuted): a 2 by 1 and a 1 by 1 grey image differ in
    width, and Multiply raises nothing: it returns the 1 by 1 product
    over their common region. *)
Lemma multiply_accepts_unequal_sizes :
  let self := {| ImageMultiplyInvocation.base := Examples.node;
                 ImageMultiplyInvocation.image1 := {| image_name := "grey" |};
                 ImageMultiplyInvocation.image2 := {| image_name := "dot" |} |} in
  stored Examples.context "grey" = Some Examples.grey
  ∧ stored Examples.context "dot" = Some Examples.dot
  ∧ Image.width Examples.grey ≠ Image.width Examples.dot
  ∧ Py.is_ok (ImageMultiplyInvocation.invoke self Examples.context) = true
  ∧ ∃ out context' res,
      ImageMultiplyInvocation.invoke self Examples.context = Ok (out, context')
      ∧ stored context' (image_name (ImageOutput.image out)) = Some res
      ∧ Image.size res = (1, 1)
      ∧ Image.rows res = [[[200]]].
Proof.
  intros self. split; [reflexivity|]. split; [reflexivity|].
  split; [discriminate|]. split; [vm_compute; reflexivity|].
  eexists _, _, _. split; [vm_compute; reflexivity|].
  split; [vm_compute; reflexivity|]. split; reflexivity.
Qed.

(** C4 (amended): Multiply has no size check.  For two well-formed
    images with 8-bit bands and the same number of bands, of equal or
    unequal sizes, it returns an image over their common region, of
    width [min w1 w2] and height [min h1 h2], in which every sample is
    the product of the two samples divided by 255 (the product of the
    normalized values, back on the 8-bit scale).  For operands of equal
    size that is every pixel. *)
Theorem multiply_over_common_region (self : ImageMultiplyInvocation.t)
    (context : InvocationContext) (im1 im2 : Image.t) :
  stored context (image_name (ImageMultiplyInvocation.image1 self)) = Some im1 →
  stored context (image_name (ImageMultiplyInvocation.image2 self)) = Some im2 →
  Image.valid im1 = true →
  Image.valid im2 = true →
  Image.is_uint8 (Image.mode im1) = true →
  Image.is_uint8 (Image.mode im2) = true →
  Image.bands (Image.mode im1) = Image.bands (Image.mode im2) →
  ∃ out context' res,
    ImageMultiplyInvocation.invoke self context = Ok (out, context')
    ∧ stored context' (image_name (ImageOutput.image out)) = Some res
    ∧ ImageOutput.width out = Z.min (Image.width im1) (Image.width im2)
    ∧ ImageOutput.height out = Z.min (Image.height im1) (Image.height im2)
    ∧ Image.width res = Z.min (Image.width im1) (Image.width im2)
    ∧ Image.height res = Z.min (Image.height im1) (Image.height im2)
    ∧ ∀ x y k a b,
        sample_at im1 x y k = Some a →
        sample_at im2 x y k = Some b →
        sample_at res x y k = Some ((a * b) `div` 255).
Proof.
  intros Him1 Him2 Hv1 Hv2 Hm1 Hm2 Hbands.
  rewrite (multiply_invoke self context im1 im2 Him1 Him2 Hm1 Hm2 Hbands). cbv zeta.
  eexists _, _, _. split; [reflexivity|].
  split; [apply stored_create|].
  do 4 (split; [reflexivity|]).
  intros x y k a b Ha Hb. unfold sample_at in *. simpl.
  destruct (Image.pixel_at (Image.rows im1) x y) as [p1|] eqn:Hp1; [|done].
  destruct (Image.pixel_at (Image.rows im2) x y) as [p2|] eqn:Hp2; [|done].
  simpl in Ha, Hb.
  destruct (valid_pixel_bounds im1 x y p1 Hv1 Hp1) as [Hx1 Hy1].
  destruct (valid_pixel_bounds im2 x y p2 Hv2 Hp2) as [Hx2 Hy2].
  rewrite pixel_at_tabulate by lia. cbn [mbind option_bind].
  rewrite Hp1, Hp2. cbn [default].
  apply lookup_zip_with_Some. exists a, b.
  split; [|split; assumption].
  destruct (valid_pixel im1 x y p1 Hv1 Hp1) as [_ Hok1].
  destruct (valid_pixel im2 x y p2 Hv2 Hp2) as [_ Hok2].
  symmetry. apply CHOP_product.
  - apply (sample_ok_uint8 (Image.mode im1)); [done|]. by apply (Hok1 k).
  - apply (sample_ok_uint8 (Image.mode im2)); [done|]. by apply (Hok2 k).
Qed.

Lemma multiply_over_common_region_witness :
  ∃ out context' res,
    ImageMultiplyInvocation.invoke
      {| ImageMultiplyInvocation.base := Examples.node;
         ImageMultiplyInvocation.image1 := {| image_name := "grey" |};
         ImageMultiplyInvocation.image2 := {| image_name := "grey" |} |}
      Examples.context = Ok (out, context')
    ∧ stored context' (image_name (ImageOutput.image out)) = Some res
    ∧ ImageOutput.width out = Z.min 2 2
    ∧ ImageOutput.height out = Z.min 1 1
    ∧ Image.width res = Z.min 2 2
    ∧ Image.height res = Z.min 1 1
    ∧ ∀ x y k a b,
        sample_at Examples.grey x y k = Some a →
        sample_at Examples.grey x y k = Some b →
        sample_at res x y k = Some ((a * b) `div` 255).
Proof.
  apply (multiply_over_common_region
           {| ImageMultiplyInvocation.base := Examples.node;
              ImageMultiplyInvocation.image1 := {| image_name := "grey" |};
              ImageMultiplyInvocation.image2 := {| image_name := "grey" |} |}
           Examples.context Examples.grey Examples.grey);
    reflexivity.
Defined.

(** ** Paste *)

Lemma new_ok (m : Image.Mode) (w h : Z) (color : Image.Pixel) :
  0 ≤ w → 0 ≤ h →
  Image.new m (w, h) color
  = Ok {| Image.mode := m; Image.width := w; Image.height := h;
          Image.rows := Image.tabulate w h (λ _ _, color) |}.
Proof.
  intros Hw Hh. unfold Image.new.
  destruct (Z.ltb_spec w 0); [lia|]. destruct (Z.ltb_spec h 0); [lia|]. reflexivity.
Qed.

Lemma convert_ok {codec : Image.Codec} (im im' : Image.t) (m : Image.Mode) :
  Image.convert im m = Ok im' →
  Image.mode im' = m
  ∧ Image.width im' = Image.width im
  ∧ Image.height im' = Image.height im.
Proof.
  unfold Image.convert. intros Hc.
  destruct (decide (m = Image.mode im)) as [->|].
  - injection Hc as <-. done.
  - destruct (Image.ImagingConvert (Image.mode im) m); [|done].
    injection Hc as <-. done.
Qed.

(** Pasting into an "RGBA" image converts the pasted image to "RGBA"
    unless it is "RGBA" already. *)
Lemma paste_into_RGBA {codec : Image.Codec} (self im : Image.t) (x0 y0 : Z)
    (mask : option Image.t) :
  Image.mode self = Image.RGBA →
  Image.paste self im (x0, y0) mask
  = Image.convert im Image.RGBA ≫= λ im',
      Image.ImagingPaste self im' mask x0 y0 (x0 + Image.width im) (y0 + Image.height im).
Proof.
  intros Hmode. unfold Image.paste, Image.convert. rewrite Hmode.
  destruct (decide (Image.RGBA = Image.mode im)) as [Heq|Hne]; [reflexivity|].
  rewrite bool_decide_eq_false_2 by (intros [? _]; done).
  reflexivity.
Qed.



(** ** Crop *)





(** ** The size of what the operations return *)

Lemma bind_Ok_inv {A B : Type} (m : result A) (f : A → result B) (b : B) :
  m ≫= f = Ok b → ∃ a, m = Ok a ∧ f a = Ok b.
Proof. destruct m as [a|e]; [eauto|discriminate]. Qed.

Lemma new_size (m : Image.Mode) (sz : Z * Z) (color : Image.Pixel) (im : Image.t) :
  Image.new m sz color = Ok im → Image.size im = sz.
Proof.
  unfold Image.new. destruct sz as [w h].
  destruct ((w <? 0) || (h <? 0)); [discriminate|].
  intros [= <-]. reflexivity.
Qed.

Lemma ImagingPaste_size (imOut imIn : Image.t) (imMask : option Image.t)
    (dx0 dy0 dx1 dy1 : Z) (res : Image.t) :
  Image.ImagingPaste imOut imIn imMask dx0 dy0 dx1 dy1 = Ok res →
  Image.size res = Image.size imOut.
Proof.
  unfold Image.ImagingPaste.
  repeat match goal with
         | |- context [if ?b then _ else _] => destruct b
         | |- context [match ?o with Some _ => _ | None => _ end] => destruct o
         | |- context [match Image.mode ?m with _ => _ end] => destruct (Image.mode m)
         end;
    intros [= <-] || discriminate; reflexivity.
Qed.

Lemma paste_size {codec : Image.Codec} (self im : Image.t) (box : Z * Z)
    (mask : option Image.t) (res : Image.t) :
  Image.paste self im box mask = Ok res → Image.size res = Image.size self.
Proof.
  unfold Image.paste. destruct box as [x0 y0]. intros Hp.
  apply bind_Ok_inv in Hp as (im' & _ & Hp).
  by apply ImagingPaste_size in Hp.
Qed.

Lemma convert_size {codec : Image.Codec} (im im' : Image.t) (m : Image.Mode) :
  Image.convert im m = Ok im' → Image.size im' = Image.size im.
Proof.
  intros Hc. destruct (convert_ok im im' m Hc) as (_ & Hw & Hh).
  unfold Image.size. by rewrite Hw, Hh.
Qed.

Lemma filter_size {codec : Image.Codec} (im im' : Image.t) kind radius :
  Image.filter im kind radius = Ok im' → Image.size im' = Image.size im.
Proof.
  unfold Image.filter. destruct (Image.ImagingBlur kind radius im); [|discriminate].
  intros [= <-]. reflexivity.
Qed.

(** [resize] returns the requested size, and it succeeds on a positive
    image only with a positive size. *)
Lemma resize_size {codec : Image.Codec} (im im' : Image.t) (w h : Z) resample :
  Image.resize im (w, h) resample = Ok im' →
  Image.size im' = (w, h)
  ∧ (0 < Image.width im → 0 < Image.height im → 0 < w ∧ 0 < h).
Proof.
  unfold Image.resize, Image.size.
  destruct ((Image.width im =? w) && (Image.height im =? h)) eqn:Hsame.
  - intros [= <-]. apply andb_prop in Hsame as [Hw Hh].
    apply Z.eqb_eq in Hw, Hh. subst. split; [reflexivity|]. lia.
  - destruct ((w <? 1) || (h <? 1)) eqn:Hsmall; [discriminate|].
    intros [= <-]. split; [reflexivity|].
    apply orb_false_elim in Hsmall as [Hw Hh].
    apply Z.ltb_ge in Hw, Hh. lia.
Qed.

Lemma invert_size (im im' : Image.t) :
  ImageOps.invert im = Ok im' → Image.size im' = Image.size im.
Proof.
  unfold ImageOps.invert. destruct (Image.mode im); intros [= <-] || discriminate;
    reflexivity.
Qed.

Lemma last_band_size (im band : Image.t) :
  MaskFromAlphaInvocation.last_band im = Ok band →
  Image.size band = Image.size im.
Proof.
  unfold MaskFromAlphaInvocation.last_band, Image.split.
  destruct (Image.mode im); simpl; intros [= <-]; reflexivity.
Qed.

Lemma multiply_size (im1 im2 res : Image.t) :
  ImageChops.multiply im1 im2 = Ok res →
  Image.size res
  = (Z.min (Image.width im1) (Image.width im2),
     Z.min (Image.height im1) (Image.height im2)).
Proof.
  unfold ImageChops.multiply.
  destruct (negb _); [discriminate|]. destruct (_ || _); [discriminate|].
  intros [= <-]. unfold Image.size. simpl. f_equal.
  - destruct (Z.ltb_spec (Image.width im1) (Image.width im2)); lia.
  - destruct (Z.ltb_spec (Image.height im1) (Image.height im2)); lia.
Qed.

Lemma getchannel_size (im res : Image.t) (channel : string) :
  Image.getchannel im channel = Ok res → Image.size res = Image.size im.
Proof.
  unfold Image.getchannel.
  destruct (Image.index _ _); [|discriminate].
  destruct (Image.is_uint8 _); [|discriminate].
  intros [= <-]. reflexivity.
Qed.

Lemma add_watermark_size {backend : Backend} (im res : Image.t) (text : string) :
  InvisibleWatermark.add_watermark im text = Ok res →
  Image.size res = Image.size im.
Proof.
  unfold InvisibleWatermark.add_watermark. intros Hw.
  apply bind_Ok_inv in Hw as (r & _ & [= <-]). reflexivity.
Qed.

(** ** The store keeps positive sizes *)

Lemma positive_store_lookup (context : InvocationContext) (name : string)
    (r : ImageRecord) :
  positive_store context = true →
  images context !! name = Some r →
  0 < Image.width (pil_image r) ∧ 0 < Image.height (pil_image r).
Proof.
  unfold positive_store. rewrite forallb_forall. intros Hall Hr.
  specialize (Hall (name, r)). rewrite <- list_elem_of_In in Hall.
  rewrite elem_of_map_to_list in Hall. specialize (Hall Hr). simpl in Hall.
  apply andb_prop in Hall as [Hw Hh]. apply Z.ltb_lt in Hw, Hh. done.
Qed.

Lemma positive_store_intro (context : InvocationContext) :
  (∀ name r, images context !! name = Some r →
             0 < Image.width (pil_image r) ∧ 0 < Image.height (pil_image r)) →
  positive_store context = true.
Proof.
  intros Hall. unfold positive_store. rewrite forallb_forall.
  intros [name r] Hin. rewrite <- list_elem_of_In, elem_of_map_to_list in Hin.
  destruct (Hall name r Hin) as [Hw Hh]. simpl.
  apply andb_true_intro. split; by apply Z.ltb_lt.
Qed.

Lemma get_pil_image_positive (context : InvocationContext) (name : string)
    (im : Image.t) :
  positive_store context = true →
  ImageService.get_pil_image context name = Ok im →
  0 < Image.width im ∧ 0 < Image.height im.
Proof.
  unfold ImageService.get_pil_image. intros Hpos Hget.
  destruct (images context !! name) as [r|] eqn:Hr; [|discriminate].
  injection Hget as <-. by apply (positive_store_lookup context name).
Qed.

Lemma create_positive (context : InvocationContext) (im : Image.t) o c n s i m :
  positive_store context = true →
  0 < Image.width im → 0 < Image.height im →
  positive_store (ImageService.create context im o c n s i m).2 = true.
Proof.
  intros Hpos Hw Hh. apply positive_store_intro. simpl.
  intros name r Hr. apply lookup_insert_Some in Hr as [[_ <-]|[_ Hr]].
  - done.
  - by apply (positive_store_lookup context name).
Qed.

(** ** Positive output sizes *)

(** What a node returns was created from an image of that size. *)
Lemma created_output (context context' : InvocationContext) (im : Image.t)
    o c n s i m (out : ImageOutput.t) :
  (let '(image_dto, context0) := ImageService.create context im o c n s i m in
   Ok (image_output image_dto, context0)) = Ok (out, context') →
  ImageOutput.width out = Image.width im
  ∧ ImageOutput.height out = Image.height im
  ∧ context' = (ImageService.create context im o c n s i m).2.
Proof. simpl. intros [= <- <-]. done. Qed.

Lemma created_mask_output (context context' : InvocationContext) (im : Image.t)
    o c n s i m (out : MaskOutput.t) :
  (let '(image_dto, context0) := ImageService.create context im o c n s i m in
   Ok (mask_output image_dto, context0)) = Ok (out, context') →
  MaskOutput.width out = Image.width im
  ∧ MaskOutput.height out = Image.height im
  ∧ context' = (ImageService.create context im o c n s i m).2.
Proof. simpl. intros [= <- <-]. done. Qed.

(** The steps of an invocation that returned: every bound operation
    returned; the sizes of the intermediate images follow. *)
Ltac returned :=
  repeat match goal with
    | H : _ ≫= _ = Ok _ |- _ =>
        apply bind_Ok_inv in H as (? & ? & H); cbv beta in H
    | H : (let '(_, _) := ImageService.create _ _ _ _ _ _ _ _ in
           Ok (image_output _, _)) = Ok _ |- _ =>
        apply created_output in H as (? & ? & ?)
    | H : (let '(_, _) := ImageService.create _ _ _ _ _ _ _ _ in
           Ok (mask_output _, _)) = Ok _ |- _ =>
        apply created_mask_output in H as (? & ? & ?)
    | H : Ok _ = Ok _ |- _ => inversion H; subst; clear H
    | H : (if ?b then _ else _) = Ok _ |- _ => destruct b eqn:?
    end.

Ltac sizes :=
  repeat match goal with
    | Hpos : positive_store ?c = true,
      H : ImageService.get_pil_image ?c _ = Ok _ |- _ =>
        apply (get_pil_image_positive _ _ _ Hpos) in H as [? ?]
    | H : Image.new _ _ _ = Ok _ |- _ => apply new_size in H
    | H : Image.paste _ _ _ _ = Ok _ |- _ => apply paste_size in H
    | H : Image.convert _ _ = Ok _ |- _ => apply convert_size in H
    | H : Image.filter _ _ _ = Ok _ |- _ => apply filter_size in H
    | H : Image.resize _ (_, _) _ = Ok _ |- _ => apply resize_size in H as [? ?]
    | H : ImageOps.invert _ = Ok _ |- _ => apply invert_size in H
    | H : MaskFromAlphaInvocation.last_band _ = Ok _ |- _ =>
        apply last_band_size in H
    | H : ImageChops.multiply _ _ = Ok _ |- _ => apply multiply_size in H
    | H : Image.getchannel _ _ = Ok _ |- _ => apply getchannel_size in H
    | H : InvisibleWatermark.add_watermark _ _ = Ok _ |- _ =>
        apply add_watermark_size in H
    | H : ImageNumpy.fromarray _ = Ok _ |- _ =>
        rewrite ?map_map, fromarray_map_asarray in H; inversion H; subst; clear H
    end;
  unfold Image.size in *;
  repeat match goal with
    | H : (_, _) = (_, _) |- _ => injection H as ? ?
    end.

Ltac positive :=
  subst;
  cbn [Image.width Image.height ImageOutput.width ImageOutput.height
       MaskOutput.width MaskOutput.height fst snd] in *;
  split; [lia|]; split; [lia|];
  first [ assumption
        | apply create_positive;
            [assumption | cbn [Image.width Image.height]; lia..] ].

Lemma load_image_positive (n : LoadImageInvocation.t) context out context' :
  positive_store context = true →
  LoadImageInvocation.invoke n context = Ok (out, context') →
  0 < ImageOutput.width out ∧ 0 < ImageOutput.height out
  ∧ positive_store context' = true.
Proof.
  unfold LoadImageInvocation.invoke. intros Hpos Hrun.
  returned. sizes. positive.
Qed.

Lemma show_image_positive (n : ShowImageInvocation.t) context out context' :
  positive_store context = true →
  ShowImageInvocation.invoke n context = Ok (out, context') →
  0 < ImageOutput.width out ∧ 0 < ImageOutput.height out
  ∧ positive_store context' = true.
Proof.
  unfold ShowImageInvocation.invoke. intros Hpos Hrun.
  returned. sizes. positive.
Qed.

Lemma img_crop_positive {codec : Image.Codec} (n : ImageCropInvocation.t)
    context out context' :
  positive_store context = true →
  ImageCropInvocation.validate n = true →
  ImageCropInvocation.invoke n context = Ok (out, context') →
  0 < ImageOutput.width out ∧ 0 < ImageOutput.height out
  ∧ positive_store context' = true.
Proof.
  unfold ImageCropInvocation.invoke, ImageCropInvocation.validate.
  intros Hpos Hval Hrun. apply andb_prop in Hval as [Hw Hh].
  apply Z.ltb_lt in Hw, Hh.
  returned. sizes. positive.
Qed.

Lemma img_paste_positive {codec : Image.Codec} (n : ImagePasteInvocation.t)
    context out context' :
  positive_store context = true →
  ImagePasteInvocation.invoke n context = Ok (out, context') →
  0 < ImageOutput.width out ∧ 0 < ImageOutput.height out
  ∧ positive_store context' = true.
Proof.
  unfold ImagePasteInvocation.invoke. intros Hpos Hrun. cbv zeta in Hrun.
  apply bind_Ok_inv in Hrun as (base & Hbase & Hrun).
  apply bind_Ok_inv in Hrun as (image & Himage & Hrun).
  apply bind_Ok_inv in Hrun as (mask & _ & Hrun).
  returned. sizes. positive.
Qed.

Lemma tomask_positive (n : MaskFromAlphaInvocation.t) context out context' :
  positive_store context = true →
  MaskFromAlphaInvocation.invoke n context = Ok (out, context') →
  0 < MaskOutput.width out ∧ 0 < MaskOutput.height out
  ∧ positive_store context' = true.
Proof.
  unfold MaskFromAlphaInvocation.invoke. intros Hpos Hrun.
  returned; sizes; positive.
Qed.

Lemma img_mul_positive (n : ImageMultiplyInvocation.t) context out context' :
  positive_store context = true →
  ImageMultiplyInvocation.invoke n context = Ok (out, context') →
  0 < ImageOutput.width out ∧ 0 < ImageOutput.height out
  ∧ positive_store context' = true.
Proof.
  unfold ImageMultiplyInvocation.invoke. intros Hpos Hrun.
  returned. sizes. positive.
Qed.

Lemma img_chan_positive (n : ImageChannelInvocation.t) context out context' :
  positive_store context = true →
  ImageChannelInvocation.invoke n context = Ok (out, context') →
  0 < ImageOutput.width out ∧ 0 < ImageOutput.height out
  ∧ positive_store context' = true.
Proof.
  unfold ImageChannelInvocation.invoke. intros Hpos Hrun.
  returned. sizes. positive.
Qed.

Lemma img_conv_positive {codec : Image.Codec} (n : ImageConvertInvocation.t)
    context out context' :
  positive_store context = true →
  ImageConvertInvocation.invoke n context = Ok (out, context') →
  0 < ImageOutput.width out ∧ 0 < ImageOutput.height out
  ∧ positive_store context' = true.
Proof.
  unfold ImageConvertInvocation.invoke. intros Hpos Hrun.
  returned. sizes. positive.
Qed.

Lemma img_blur_positive {codec : Image.Codec} (n : ImageBlurInvocation.t)
    context out context' :
  positive_store context = true →
  ImageBlurInvocation.invoke n context = Ok (out, context') →
  0 < ImageOutput.width out ∧ 0 < ImageOutput.height out
  ∧ positive_store context' = true.
Proof.
  unfold ImageBlurInvocation.invoke. intros Hpos Hrun. cbv zeta in Hrun.
  returned. sizes. positive.
Qed.

Lemma img_resize_positive {codec : Image.Codec} (n : ImageResizeInvocation.t)
    context out context' :
  positive_store context = true →
  ImageResizeInvocation.invoke n context = Ok (out, context') →
  0 < ImageOutput.width out ∧ 0 < ImageOutput.height out
  ∧ positive_store context' = true.
Proof.
  unfold ImageResizeInvocation.invoke. intros Hpos Hrun. cbv zeta in Hrun.
  returned. sizes. positive.
Qed.

(** Scale: whatever the factor, an invocation that returns has passed
    [resize], which accepts no size below 1. *)
Lemma img_scale_positive {codec : Image.Codec} (n : ImageScaleInvocation.t)
    context out context' :
  positive_store context = true →
  ImageScaleInvocation.invoke n context = Ok (out, context') →
  0 < ImageOutput.width out ∧ 0 < ImageOutput.height out
  ∧ positive_store context' = true.
Proof.
  unfold ImageScaleInvocation.invoke. intros Hpos Hrun. cbv zeta in Hrun.
  apply bind_Ok_inv in Hrun as (image & Himage & Hrun).
  apply bind_Ok_inv in Hrun as (w & _ & Hrun).
  apply bind_Ok_inv in Hrun as (h & _ & Hrun).
  returned. sizes. positive.
Qed.

Lemma img_lerp_positive (n : ImageLerpInvocation.t) context out context' :
  positive_store context = true →
  ImageLerpInvocation.invoke n context = Ok (out, context') →
  0 < ImageOutput.width out ∧ 0 < ImageOutput.height out
  ∧ positive_store context' = true.
Proof.
  unfold ImageLerpInvocation.invoke. intros Hpos Hrun. cbv zeta in Hrun.
  returned. sizes. positive.
Qed.

Lemma img_ilerp_positive (n : ImageInverseLerpInvocation.t) context out context' :
  positive_store context = true →
  ImageInverseLerpInvocation.invoke n context = Ok (out, context') →
  0 < ImageOutput.width out ∧ 0 < ImageOutput.height out
  ∧ positive_store context' = true.
Proof.
  unfold ImageInverseLerpInvocation.invoke. intros Hpos Hrun. cbv zeta in Hrun.
  apply bind_Ok_inv in Hrun as (image & Himage & Hrun).
  apply bind_Ok_inv in Hrun as (divisor & _ & Hrun).
  returned. sizes. positive.
Qed.

Lemma img_nsfw_positive {codec : Image.Codec} {backend : Backend}
    (n : ImageNSFWBlurInvocation.t) context out context' :
  positive_store context = true →
  ImageNSFWBlurInvocation.invoke n context = Ok (out, context') →
  0 < ImageOutput.width out ∧ 0 < ImageOutput.height out
  ∧ positive_store context' = true.
Proof.
  unfold ImageNSFWBlurInvocation.invoke. intros Hpos Hrun.
  apply bind_Ok_inv in Hrun as (image & Himage & Hrun).
  apply bind_Ok_inv in Hrun as (flagged & _ & Hrun).
  apply bind_Ok_inv in Hrun as (image' & Himage' & Hrun).
  destruct flagged.
  - apply bind_Ok_inv in Himage' as (blurry & Hblurry & Himage').
    apply bind_Ok_inv in Himage' as (caution & _ & Himage').
    returned. sizes. positive.
  - returned. sizes. positive.
Qed.

Lemma img_watermark_positive {backend : Backend}
    (n : ImageWatermarkInvocation.t) context out context' :
  positive_store context = true →
  ImageWatermarkInvocation.invoke n context = Ok (out, context') →
  0 < ImageOutput.width out ∧ 0 < ImageOutput.height out
  ∧ positive_store context' = true.
Proof.
  unfold ImageWatermarkInvocation.invoke. intros Hpos Hrun.
  returned. sizes. positive.
Qed.

(** C5: every node that returns, run on a store whose images have
    positive sizes, returns an output whose width and height are
    positive, and leaves a store whose images have positive sizes.  For
    Scale this holds for every scale factor: a factor small enough to
    truncate a side to 0 makes [resize] raise, so the invocation does
    not return. *)
Theorem output_dimensions_positive {codec : Image.Codec} {backend : Backend}
    (node : Invocation) (context context' : InvocationContext) (out : Output) :
  positive_store context = true →
  validate node = true →
  invoke node context = Ok (out, context') →
  0 < out_width out ∧ 0 < out_height out ∧ positive_store context' = true.
Proof.
  intros Hpos Hval Hrun.
  destruct node as [n|n|n|n|n|n|n|n|n|n|n|n|n|n|n];
    cbn [invoke validate] in *; unfold as_image in Hrun;
    apply bind_Ok_inv in Hrun as ([o c] & Hrun & [= <- <-]);
    cbn [of_image_output of_mask_output out_width out_height fst snd].
  - by apply (load_image_positive n context).
  - by apply (show_image_positive n context).
  - by apply (img_crop_positive n context).
  - by apply (img_paste_positive n context).
  - by apply (tomask_positive n context).
  - by apply (img_mul_positive n context).
  - by apply (img_chan_positive n context).
  - by apply (img_conv_positive n context).
  - by apply (img_blur_positive n context).
  - by apply (img_resize_positive n context).
  - by apply (img_scale_positive n context).
  - by apply (img_lerp_positive n context).
  - by apply (img_ilerp_positive n context).
  - by apply (img_nsfw_positive n context).
  - by apply (img_watermark_positive n context).
Qed.

Lemma output_dimensions_positive_witness :
  0 < 4 ∧ 0 < 4
  ∧ positive_store
      (ImageService.create Examples.context Examples.rgba_doubled
         INTERNAL GENERAL "node" "session" false None).2 = true.
Proof.
  apply (output_dimensions_positive (codec := Examples.codec)
           (backend := Examples.backend)
           (img_scale (Examples.scale_by Examples.two)) Examples.context
           (ImageService.create Examples.context Examples.rgba_doubled
              INTERNAL GENERAL "node" "session" false None).2
           {| out_name := "image_0"; out_width := 4; out_height := 4 |});
    [reflexivity | reflexivity | vm_compute; reflexivity].
Defined.

(** ** Binary64: the product of an integer below 2^53 and 1.0 *)













(** ** Scale *)




(** * Further properties of the nodes *)

(** ** Paste into a buffer, pixel by pixel *)

(** [ImagingPaste] with any offset, clipped or not: inside the pasted
    rectangle a pixel of the destination is written from the pixel of
    the source at the same place of the rectangle (blended with the
    matte when there is a mask), and outside it the destination is
    kept. *)
Lemma ImagingPaste_pixels (imOut imIn : Image.t) (imMask : option Image.t)
    (dx dy : Z) (f : Z → Z → Image.Pixel) :
  Image.pixelsize (Image.mode imOut) = Image.pixelsize (Image.mode imIn) →
  match imMask with
  | Some mask =>
      Image.width mask = Image.width imIn
      ∧ Image.height mask = Image.height imIn
      ∧ (Image.mode mask = Image.L ∨ Image.mode mask = Image.LA
         ∨ Image.mode mask = Image.RGBA)
  | None => True
  end →
  (∀ X Y, 0 ≤ X < Image.width imOut → 0 ≤ Y < Image.height imOut →
          Image.pixel_at (Image.rows imOut) X Y = Some (f X Y)) →
  ∃ res,
    Image.ImagingPaste imOut imIn imMask dx dy
      (dx + Image.width imIn) (dy + Image.height imIn) = Ok res
    ∧ Image.mode res = Image.mode imOut
    ∧ Image.width res = Image.width imOut
    ∧ Image.height res = Image.height imOut
    ∧ ∀ X Y, 0 ≤ X < Image.width imOut → 0 ≤ Y < Image.height imOut →
        Image.pixel_at (Image.rows res) X Y
        = Some (if bool_decide (dx ≤ X < dx + Image.width imIn
                                ∧ dy ≤ Y < dy + Image.height imIn)
                then
                  let inp := Image.as_stored (Image.mode imOut) (Image.mode imIn)
                               (default [] (Image.pixel_at (Image.rows imIn) (X - dx) (Y - dy))) in
                  match imMask with
                  | None => inp
                  | Some mask =>
                      zip_with
                        (Image.blend_sample (Image.mode imOut)
                           (Image.matte (default []
                              (Image.pixel_at (Image.rows mask) (X - dx) (Y - dy)))))
                        (f X Y) inp
                  end
                else f X Y).
Proof.
  intros Hsize Hmask Hout. unfold Image.ImagingPaste.
  replace (dx + Image.width imIn - dx) with (Image.width imIn) by lia.
  replace (dy + Image.height imIn - dy) with (Image.height imIn) by lia.
  rewrite !Z.eqb_refl, Hsize, Z.eqb_refl. cbn [andb negb].
  assert ((match imMask with
           | Some mask => negb ((Image.width imIn =? Image.width mask)
                                && (Image.height imIn =? Image.height mask))
           | None => false
           end) = false) as ->.
  { destruct imMask as [mask|]; [|done].
    destruct Hmask as (-> & -> & _). by rewrite !Z.eqb_refl. }
  destruct (Z.ltb_spec dx 0) as [Hdx|Hdx];
    destruct (Z.ltb_spec dy 0) as [Hdy|Hdy];
    cbv beta iota zeta;
    repeat match goal with
           | |- context [if ?a <? ?b then _ else _] => destruct (Z.ltb_spec a b)
           end;
    match goal with
    | |- context [if (?a <=? 0) || (?b <=? 0) then _ else _] =>
        destruct (Z.leb_spec a 0); destruct (Z.leb_spec b 0); cbn [orb]
    end;
    first
      [ (* nothing is written *)
        exists imOut; split; [reflexivity|]; do 3 (split; [reflexivity|]);
        intros X Y HX HY; rewrite (Hout X Y HX HY);
        rewrite bool_decide_eq_false_2 by lia; reflexivity
      | (* the clipped region is written *)
        destruct imMask as [mask|];
        [ destruct Hmask as (_ & _ & [-> | [-> | ->]]) | ];
        (eexists; split; [reflexivity|]; do 3 (split; [reflexivity|]);
         intros X Y HX HY; cbn [Image.rows Image.paste_region];
         rewrite pixel_at_tabulate by lia; rewrite (Hout X Y HX HY);
         cbn [default]; f_equal;
         repeat case_bool_decide; try lia; try reflexivity;
         repeat (f_equal; try lia)) ].
Qed.

(** [Image.paste] into an "RGBA" buffer whose pixels are known. *)
Lemma paste_into_RGBA_pixels {codec : Image.Codec} (self im im' : Image.t)
    (mask : option Image.t) (x0 y0 : Z) (f : Z → Z → Image.Pixel) :
  Image.mode self = Image.RGBA →
  Image.convert im Image.RGBA = Ok im' →
  match mask with
  | Some m =>
      Image.width m = Image.width im
      ∧ Image.height m = Image.height im
      ∧ (Image.mode m = Image.L ∨ Image.mode m = Image.LA
         ∨ Image.mode m = Image.RGBA)
  | None => True
  end →
  (∀ X Y, 0 ≤ X < Image.width self → 0 ≤ Y < Image.height self →
          Image.pixel_at (Image.rows self) X Y = Some (f X Y)) →
  ∃ res,
    Image.paste self im (x0, y0) mask = Ok res
    ∧ Image.mode res = Image.RGBA
    ∧ Image.width res = Image.width self
    ∧ Image.height res = Image.height self
    ∧ ∀ X Y, 0 ≤ X < Image.width self → 0 ≤ Y < Image.height self →
        Image.pixel_at (Image.rows res) X Y
        = Some (if bool_decide (x0 ≤ X < x0 + Image.width im
                                ∧ y0 ≤ Y < y0 + Image.height im)
                then
                  let inp := default [] (Image.pixel_at (Image.rows im') (X - x0) (Y - y0)) in
                  match mask with
                  | None => inp
                  | Some m =>
                      zip_with
                        (Image.blend_sample Image.RGBA
                           (Image.matte (default []
                              (Image.pixel_at (Image.rows m) (X - x0) (Y - y0)))))
                        (f X Y) inp
                  end
                else f X Y).
Proof.
  intros Hmode Hconv Hmask Hself.
  destruct (convert_ok im im' Image.RGBA Hconv) as (Hm' & Hw' & Hh').
  rewrite paste_into_RGBA, Hconv, bind_Ok by done.
  rewrite <- Hw', <- Hh'.
  destruct (ImagingPaste_pixels self im' mask x0 y0 f) as (res & -> & Hrm & Hrw & Hrh & Hpix).
  - by rewrite Hmode, Hm'.
  - destruct mask as [m|]; [|done]. by rewrite Hw', Hh'.
  - done.
  - exists res. split; [done|]. split; [congruence|]. split; [done|]. split; [done|].
    intros X Y HX HY. rewrite (Hpix X Y HX HY), Hmode, Hm'.
    unfold Image.as_stored. rewrite decide_True by done. reflexivity.
Qed.

(** ** Crop *)

Lemma crop_invoke_pixels {codec : Image.Codec} (self : ImageCropInvocation.t)
    (context : InvocationContext) (im im' : Image.t) :
  stored context (image_name (ImageCropInvocation.image self)) = Some im →
  ImageCropInvocation.validate self = true →
  Image.convert im Image.RGBA = Ok im' →
  ∃ res,
    ImageCropInvocation.invoke self context
    = (let r := ImageService.create context res INTERNAL GENERAL
                  (id (ImageCropInvocation.base self))
                  (graph_execution_state_id context)
                  (is_intermediate (ImageCropInvocation.base self)) None in
       Ok (image_output r.1, r.2))
    ∧ Image.mode res = Image.RGBA
    ∧ Image.width res = ImageCropInvocation.width self
    ∧ Image.height res = ImageCropInvocation.height self
    ∧ ∀ i j,
        0 ≤ i < ImageCropInvocation.width self →
        0 ≤ j < ImageCropInvocation.height self →
        Image.pixel_at (Image.rows res) i j
        = Some (if bool_decide
                     (0 ≤ ImageCropInvocation.x self + i < Image.width im
                      ∧ 0 ≤ ImageCropInvocation.y self + j < Image.height im)
                then default [] (Image.pixel_at (Image.rows im')
                                   (ImageCropInvocation.x self + i)
                                   (ImageCropInvocation.y self + j))
                else [0; 0; 0; 0]).
Proof.
  intros Him Hval Hconv.
  unfold ImageCropInvocation.validate in Hval.
  apply andb_prop in Hval as [Hw Hh]. apply Z.ltb_lt in Hw, Hh.
  unfold ImageCropInvocation.invoke.
  rewrite (get_pil_image_stored _ _ _ Him), bind_Ok.
  rewrite new_ok, bind_Ok by lia.
  destruct (paste_into_RGBA_pixels
              {| Image.mode := Image.RGBA;
                 Image.width := ImageCropInvocation.width self;
                 Image.height := ImageCropInvocation.height self;
                 Image.rows := Image.tabulate (ImageCropInvocation.width self)
                                 (ImageCropInvocation.height self) (λ _ _, [0; 0; 0; 0]) |}
              im im' None (- ImageCropInvocation.x self) (- ImageCropInvocation.y self)
              (λ _ _, [0; 0; 0; 0]))
    as (res & -> & Hrm & Hrw & Hrh & Hpix); try done.
  { intros X Y HX HY. by apply pixel_at_tabulate. }
  rewrite bind_Ok. exists res. split; [reflexivity|].
  split; [done|]. split; [done|]. split; [done|].
  intros i j Hi Hj. rewrite (Hpix i j Hi Hj). cbn [Image.width Image.height].
  f_equal. repeat case_bool_decide; try lia; try reflexivity.
  do 2 f_equal; lia.
Qed.



(** ** Paste *)

(** The three layers of Paste: the canvas, the base image at
    [(|min(0, x)|, |min(0, y)|)] and the overlay at
    [(max(0, x), max(0, y))], the last through the inverted mask. *)
Lemma paste_invoke_pixels {codec : Image.Codec} (self : ImagePasteInvocation.t)
    (context : InvocationContext) (base overlay base' overlay' : Image.t)
    (inv : option Image.t) :
  stored context (image_name (ImagePasteInvocation.base_image self)) = Some base →
  stored context (image_name (ImagePasteInvocation.image self)) = Some overlay →
  match ImagePasteInvocation.mask self with
  | None => Ok None
  | Some m =>
      fetched ← ImageService.get_pil_image context (image_name m);
      inverted ← ImageOps.invert fetched;
      Ok (Some inverted)
  end = Ok inv →
  match inv with
  | Some m =>
      Image.width m = Image.width overlay
      ∧ Image.height m = Image.height overlay
      ∧ (Image.mode m = Image.L ∨ Image.mode m = Image.LA
         ∨ Image.mode m = Image.RGBA)
  | None => True
  end →
  Image.convert base Image.RGBA = Ok base' →
  Image.convert overlay Image.RGBA = Ok overlay' →
  0 ≤ Image.width base → 0 ≤ Image.height base →
  let x := ImagePasteInvocation.x self in
  let y := ImagePasteInvocation.y self in
  let bx := Z.abs (Z.min 0 x) in
  let by' := Z.abs (Z.min 0 y) in
  let ox := Z.max 0 x in
  let oy := Z.max 0 y in
  let W := Z.max (Image.width base) (Image.width overlay + x) - Z.min 0 x in
  let H := Z.max (Image.height base) (Image.height overlay + y) - Z.min 0 y in
  ∃ res,
    ImagePasteInvocation.invoke self context
    = (let r := ImageService.create context res INTERNAL GENERAL
                  (id (ImagePasteInvocation.base self))
                  (graph_execution_state_id context)
                  (is_intermediate (ImagePasteInvocation.base self)) None in
       Ok (image_output r.1, r.2))
    ∧ Image.mode res = Image.RGBA
    ∧ Image.width res = W
    ∧ Image.height res = H
    ∧ ∀ X Y, 0 ≤ X < W → 0 ≤ Y < H →
        Image.pixel_at (Image.rows res) X Y
        = Some
            (let under :=
               if bool_decide (bx ≤ X < bx + Image.width base
                               ∧ by' ≤ Y < by' + Image.height base)
               then default [] (Image.pixel_at (Image.rows base') (X - bx) (Y - by'))
               else [0; 0; 0; 0] in
             if bool_decide (ox ≤ X < ox + Image.width overlay
                             ∧ oy ≤ Y < oy + Image.height overlay)
             then
               let inp := default [] (Image.pixel_at (Image.rows overlay')
                                        (X - ox) (Y - oy)) in
               match inv with
               | None => inp
               | Some m =>
                   zip_with
                     (Image.blend_sample Image.RGBA
                        (Image.matte (default []
                           (Image.pixel_at (Image.rows m) (X - ox) (Y - oy)))))
                     under inp
               end
             else under).
Proof.
  intros Hbase Hover Hmk Hinv Hcb Hco Hbw Hbh x y bx by' ox oy W H.
  unfold ImagePasteInvocation.invoke.
  rewrite (get_pil_image_stored _ _ _ Hbase), bind_Ok.
  rewrite (get_pil_image_stored _ _ _ Hover), bind_Ok.
  rewrite Hmk, bind_Ok. cbv zeta. fold x y. fold W H.
  rewrite new_ok, bind_Ok by lia.
  destruct (paste_into_RGBA_pixels
              {| Image.mode := Image.RGBA; Image.width := W; Image.height := H;
                 Image.rows := Image.tabulate W H (λ _ _, [0; 0; 0; 0]) |}
              base base' None (Z.abs (Z.min 0 x)) (Z.abs (Z.min 0 y))
              (λ _ _, [0; 0; 0; 0]))
    as (canvas & -> & Hcm & Hcw & Hch & Hcpix); try done.
  { intros X Y HX HY. by apply pixel_at_tabulate. }
  rewrite bind_Ok. cbn [Image.width Image.height] in Hcw, Hch, Hcpix.
  destruct (paste_into_RGBA_pixels canvas overlay overlay' inv
              (Z.max 0 x) (Z.max 0 y)
              (λ X Y,
                 if bool_decide (bx ≤ X < bx + Image.width base
                                 ∧ by' ≤ Y < by' + Image.height base)
                 then default [] (Image.pixel_at (Image.rows base') (X - bx) (Y - by'))
                 else [0; 0; 0; 0]))
    as (res & -> & Hrm & Hrw & Hrh & Hpix); try done.
  { intros X Y HX HY. rewrite Hcw in HX. rewrite Hch in HY.
    by rewrite (Hcpix X Y HX HY). }
  rewrite bind_Ok. exists res. split; [reflexivity|].
  split; [done|]. split; [congruence|]. split; [congruence|].
  intros X Y HX HY. rewrite <- Hcw in HX. rewrite <- Hch in HY.
  rewrite (Hpix X Y HX HY). reflexivity.
Qed.

(** A well-formed image has a pixel at every place of its grid. *)
Lemma valid_pixel_at (im : Image.t) (x y : Z) :
  Image.valid im = true →
  0 ≤ x < Image.width im → 0 ≤ y < Image.height im →
  ∃ p, Image.pixel_at (Image.rows im) x y = Some p.
Proof.
  unfold Image.valid. intros Hv Hx Hy.
  apply andb_prop in Hv as [Hv Hrows]. apply andb_prop in Hv as [_ Hlen].
  apply Z.eqb_eq in Hlen.
  destruct (lookup_lt_is_Some_2 (Image.rows im) (Z.to_nat y)) as [r Hr]; [lia|].
  rewrite forallb_forall in Hrows.
  specialize (Hrows r). rewrite <- list_elem_of_In in Hrows.
  specialize (Hrows (list_elem_of_lookup_2 _ _ _ Hr)).
  apply andb_prop in Hrows as [Hrl _]. apply Z.eqb_eq in Hrl.
  destruct (lookup_lt_is_Some_2 r (Z.to_nat x)) as [p Hp];
    [unfold Image.Pixel in *; lia|].
  exists p. unfold Image.pixel_at. rewrite bool_decide_eq_true_2 by lia.
  by rewrite Hr; simpl.
Qed.













(** ** Crop and Paste in sequence *)

Lemma convert_same_mode {codec : Image.Codec} (im : Image.t) (m : Image.Mode) :
  Image.mode im = m → Image.convert im m = Ok im.
Proof. intros <-. unfold Image.convert. by rewrite decide_True. Qed.

(** [create] leaves every other name as it was. *)
Lemma stored_create_other context im o c n s i m name :
  name ≠ ImageService.new_name context →
  stored (ImageService.create context im o c n s i m).2 name = stored context name.
Proof.
  intros Hne. unfold stored, ImageService.create. cbn [snd images].
  by rewrite lookup_insert_ne.
Qed.



(** X7: pasting a crop back where it was cut restores the source.
    For a well-formed "RGBA" source and a window inside it, Crop
    followed by Paste of the crop over the source at the window's
    offset gives an image of the source's size with the source's
    pixels. *)
Theorem crop_then_paste_restores {codec : Image.Codec} (cut : ImageCropInvocation.t)
    (context : InvocationContext) (im : Image.t) :
  stored context (image_name (ImageCropInvocation.image cut)) = Some im →
  images context !! ImageService.new_name context = None →
  Image.valid im = true →
  Image.mode im = Image.RGBA →
  ImageCropInvocation.validate cut = true →
  0 ≤ ImageCropInvocation.x cut →
  ImageCropInvocation.x cut + ImageCropInvocation.width cut ≤ Image.width im →
  0 ≤ ImageCropInvocation.y cut →
  ImageCropInvocation.y cut + ImageCropInvocation.height cut ≤ Image.height im →
  ∃ out1 context1,
    ImageCropInvocation.invoke cut context = Ok (out1, context1)
    ∧ ∀ back : ImagePasteInvocation.t,
        ImagePasteInvocation.base_image back = ImageCropInvocation.image cut →
        ImagePasteInvocation.image back = ImageOutput.image out1 →
        ImagePasteInvocation.mask back = None →
        ImagePasteInvocation.x back = ImageCropInvocation.x cut →
        ImagePasteInvocation.y back = ImageCropInvocation.y cut →
        ∃ out2 context2 res,
          ImagePasteInvocation.invoke back context1 = Ok (out2, context2)
          ∧ stored context2 (image_name (ImageOutput.image out2)) = Some res
          ∧ Image.mode res = Image.mode im
          ∧ Image.width res = Image.width im
          ∧ Image.height res = Image.height im
          ∧ ∀ X Y, 0 ≤ X < Image.width im → 0 ≤ Y < Image.height im →
              Image.pixel_at (Image.rows res) X Y
              = Image.pixel_at (Image.rows im) X Y.
Proof.
  intros Him Hfresh Hvalid Hmode Hval Hx Hxw Hy Hyh.
  pose proof Hval as Hpos. unfold ImageCropInvocation.validate in Hpos.
  apply andb_prop in Hpos as [Hw Hh]. apply Z.ltb_lt in Hw, Hh.
  pose proof (convert_same_mode im Image.RGBA Hmode) as Hconv.
  destruct (crop_invoke_pixels cut context im im Him Hval Hconv)
    as (res1 & -> & Hm1 & Hw1 & Hh1 & Hpix1).
  set (r := ImageService.create context res1 _ _ _ _ _ _). cbv zeta.
  exists (image_output r.1), r.2. split; [reflexivity|].
  intros back Hbase Himg Hmask Hbx Hby.
  assert (image_name (ImageCropInvocation.image cut) ≠ ImageService.new_name context)
    as Hne.
  { intros Heq. unfold stored in Him. rewrite Heq, Hfresh in Him. discriminate. }
  destruct (paste_invoke_pixels back r.2 im res1 im res1 None)
    as (res & -> & Hm & Hrw & Hrh & Hpix).
  { rewrite Hbase. subst r. rewrite stored_create_other by done. exact Him. }
  { rewrite Himg. apply stored_create. }
  { by rewrite Hmask. }
  { done. }
  { done. }
  { by apply convert_same_mode. }
  { lia. }
  { lia. }
  cbv zeta in Hrw, Hrh, Hpix.
  rewrite ?Hbx, ?Hby, ?Hw1, ?Hh1 in Hrw, Hrh, Hpix.
  cbv zeta. eexists _, _, res. split; [reflexivity|]. split; [apply stored_create|].
  split; [congruence|]. split; [lia|]. split; [lia|].
  intros X Y HX HY. rewrite Hpix by lia. cbv zeta.
  rewrite ?Hbx, ?Hby, ?Hw1, ?Hh1.
  destruct (valid_pixel_at im X Y Hvalid HX HY) as [p Hp].
  rewrite (bool_decide_eq_true_2 (Z.abs _ ≤ X < _ ∧ _)) by lia.
  replace (X - Z.abs (Z.min 0 (ImageCropInvocation.x cut))) with X by lia.
  replace (Y - Z.abs (Z.min 0 (ImageCropInvocation.y cut))) with Y by lia.
  case_bool_decide as Hin.
  - rewrite Hpix1 by lia. cbn [from_option Datatypes.id].
    rewrite bool_decide_eq_true_2 by lia.
    replace (ImageCropInvocation.x cut + (X - Z.max 0 (ImageCropInvocation.x cut)))
      with X by lia.
    replace (ImageCropInvocation.y cut + (Y - Z.max 0 (ImageCropInvocation.y cut)))
      with Y by lia.
    by rewrite Hp.
  - by rewrite Hp.
Qed.

Lemma crop_then_paste_restores_witness :
  ∃ out1 context1,
    ImageCropInvocation.invoke (codec := Examples.codec)
      (Cases.crop 1 0 1 2) Cases.context = Ok (out1, context1)
    ∧ ∀ back : ImagePasteInvocation.t,
        ImagePasteInvocation.base_image back = {| image_name := "rgba" |} →
        ImagePasteInvocation.image back = ImageOutput.image out1 →
        ImagePasteInvocation.mask back = None →
        ImagePasteInvocation.x back = 1 →
        ImagePasteInvocation.y back = 0 →
        ∃ out2 context2 res,
          ImagePasteInvocation.invoke (codec := Examples.codec) back context1
          = Ok (out2, context2)
          ∧ stored context2 (image_name (ImageOutput.image out2)) = Some res
          ∧ Image.mode res = Image.RGBA
          ∧ Image.width res = 2
          ∧ Image.height res = 2
          ∧ ∀ X Y, 0 ≤ X < 2 → 0 ≤ Y < 2 →
              Image.pixel_at (Image.rows res) X Y
              = Image.pixel_at (Image.rows Examples.rgba) X Y.
Proof.
  apply (crop_then_paste_restores (codec := Examples.codec) (Cases.crop 1 0 1 2)
           Cases.context Examples.rgba);
    first [reflexivity | vm_compute; discriminate].
Defined.

(** ** What every node does to the image service *)

Lemma created {A : Type} (f : ImageDTO → A) (context context' : InvocationContext)
    (im : Image.t) o c n s i m (out : A) :
  (let '(image_dto, context0) := ImageService.create context im o c n s i m in
   Ok (f image_dto, context0)) = Ok (out, context') →
  out = f (ImageService.create context im o c n s i m).1
  ∧ context' = (ImageService.create context im o c n s i m).2.
Proof.
  destruct (ImageService.create context im o c n s i m) as [dto c0].
  intros H. by inversion H.
Qed.

(** The steps of a run that returned. *)
Ltac ran :=
  repeat match goal with
    | H : as_image _ _ = Ok _ |- _ => unfold as_image in H
    | H : _ ≫= _ = Ok _ |- _ =>
        apply bind_Ok_inv in H as (? & ? & H); cbv beta zeta in H
    | H : (let '(_, _) := ImageService.create _ _ _ _ _ _ _ _ in Ok (_, _)) = Ok _ |- _ =>
        apply (created image_output) in H as (? & ?)
    | H : (let '(_, _) := ImageService.create _ _ _ _ _ _ _ _ in Ok (_, _)) = Ok _ |- _ =>
        apply (created mask_output) in H as (? & ?)
    | H : Ok _ = Ok _ |- _ => inversion H; subst; clear H
    end.

(** X8: a node other than Load and Show that returns has created
    exactly one image: under the next name of the service, which is the
    name in its output, with origin INTERNAL, category MASK for
    MaskFromAlpha and GENERAL otherwise, the node's id and
    [is_intermediate], the session id of the context, the metadata of
    the node (NSFW blur and Watermark only), and the width and height
    that the output reports. *)
Theorem invoke_records_one_image {codec : Image.Codec} {backend : Backend}
    (node : Invocation) (context context' : InvocationContext) (out : Output) :
  passes_through node = false →
  invoke node context = Ok (out, context') →
  out_name out = ImageService.new_name context
  ∧ names_issued context' = S (names_issued context)
  ∧ graph_execution_state_id context' = graph_execution_state_id context
  ∧ ∃ r,
      images context' = <[ImageService.new_name context := r]> (images context)
      ∧ image_origin r = INTERNAL
      ∧ image_category r = category_of node
      ∧ node_id r = id (base_of node)
      ∧ session_id r = graph_execution_state_id context
      ∧ intermediate r = is_intermediate (base_of node)
      ∧ metadata r = metadata_of node
      ∧ Image.width (pil_image r) = out_width out
      ∧ Image.height (pil_image r) = out_height out.
Proof.
  intros Hpass Hrun.
  destruct node; try discriminate; cbn [invoke] in Hrun;
    unfold as_image in Hrun; apply bind_Ok_inv in Hrun as ([o c] & Hrun & Hout);
    inversion Hout; subst; clear Hout; cbn [fst snd];
    [ unfold ImageCropInvocation.invoke in Hrun
    | unfold ImagePasteInvocation.invoke in Hrun
    | unfold MaskFromAlphaInvocation.invoke in Hrun
    | unfold ImageMultiplyInvocation.invoke in Hrun
    | unfold ImageChannelInvocation.invoke in Hrun
    | unfold ImageConvertInvocation.invoke in Hrun
    | unfold ImageBlurInvocation.invoke in Hrun
    | unfold ImageResizeInvocation.invoke in Hrun
    | unfold ImageScaleInvocation.invoke in Hrun
    | unfold ImageLerpInvocation.invoke in Hrun
    | unfold ImageInverseLerpInvocation.invoke in Hrun
    | unfold ImageNSFWBlurInvocation.invoke in Hrun
    | unfold ImageWatermarkInvocation.invoke in Hrun ];
    ran; subst;
    (split; [reflexivity|]); (split; [reflexivity|]); (split; [reflexivity|]);
    eexists; (split; [reflexivity|]); repeat split.
Qed.

Lemma invoke_records_one_image_witness :
  ∃ out context',
    invoke (codec := Examples.codec) (backend := Examples.backend)
      (img_crop (Cases.crop 0 0 1 1)) Cases.context = Ok (out, context')
    ∧ out_name out = "image_0"
    ∧ names_issued context' = 1%nat
    ∧ graph_execution_state_id context' = "session"
    ∧ ∃ r,
        images context' = <["image_0" := r]> (images Cases.context)
        ∧ image_origin r = INTERNAL
        ∧ image_category r = GENERAL
        ∧ node_id r = "node"
        ∧ session_id r = "session"
        ∧ intermediate r = false
        ∧ metadata r = None
        ∧ Image.width (pil_image r) = out_width out
        ∧ Image.height (pil_image r) = out_height out.
Proof.
  eexists _, _. split; [reflexivity|].
  apply (invoke_records_one_image (codec := Examples.codec) (backend := Examples.backend)
           (img_crop (Cases.crop 0 0 1 1)) Cases.context); reflexivity.
Defined.

(** X9: Load and Show create nothing: the context comes back as it
    was, and the output names the input image with its width and
    height. *)
Theorem load_and_show_pass_through {codec : Image.Codec} {backend : Backend}
    (node : Invocation) (context context' : InvocationContext) (out : Output) :
  passes_through node = true →
  invoke node context = Ok (out, context') →
  context' = context
  ∧ inputs node = [out_name out]
  ∧ ∃ im, stored context (out_name out) = Some im
          ∧ out_width out = Image.width im
          ∧ out_height out = Image.height im.
Proof.
  intros Hpass Hrun.
  destruct node; try discriminate; cbn [invoke] in Hrun;
    unfold as_image in Hrun; apply bind_Ok_inv in Hrun as ([o c] & Hrun & Hout);
    inversion Hout; subst; clear Hout; cbn [fst snd];
    [ unfold LoadImageInvocation.invoke in Hrun
    | unfold ShowImageInvocation.invoke in Hrun ];
    apply bind_Ok_inv in Hrun as (im & Hget & Hrun); inversion Hrun; subst; clear Hrun;
    (split; [reflexivity|]); (split; [reflexivity|]);
    exists im; (split; [|split; reflexivity]);
    unfold ImageService.get_pil_image in Hget; unfold stored;
    cbn [of_image_output out_name ImageOutput.image image_name];
    match type of Hget with
    | context [images context' !! ?k] => destruct (images context' !! k)
    end; by inversion Hget.
Qed.

Lemma load_and_show_pass_through_witness :
  ∃ out context',
    invoke (codec := Examples.codec) (backend := Examples.backend)
      (load_image {| LoadImageInvocation.base := Examples.node;
                     LoadImageInvocation.image := {| image_name := "grey" |} |})
      Cases.context = Ok (out, context')
    ∧ context' = Cases.context
    ∧ [ "grey" ] = [out_name out]
    ∧ ∃ im, stored Cases.context (out_name out) = Some im
            ∧ out_width out = Image.width im
            ∧ out_height out = Image.height im.
Proof.
  eexists _, _. split; [reflexivity|].
  apply (load_and_show_pass_through (codec := Examples.codec) (backend := Examples.backend)
           (load_image {| LoadImageInvocation.base := Examples.node;
                          LoadImageInvocation.image := {| image_name := "grey" |} |})
           Cases.context); reflexivity.
Defined.

Lemma get_pil_image_missing (context : InvocationContext) (name : string) :
  images context !! name = None →
  ImageService.get_pil_image context name = Raise (ImageFileNotFoundException name).
Proof. unfold ImageService.get_pil_image. by intros ->. Qed.

Lemma get_pil_image_present (context : InvocationContext) (name : string) :
  images context !! name ≠ None →
  ∃ im, ImageService.get_pil_image context name = Ok im.
Proof.
  unfold ImageService.get_pil_image. destruct (images context !! name); [|done].
  by eexists.
Qed.

(** X10: a node whose input image is not in the service fails with
    [ImageFileNotFoundException] for the first name, in the order of its
    fetches, that is missing; nothing is created. *)
Theorem missing_input_raises {codec : Image.Codec} {backend : Backend}
    (node : Invocation) (context : InvocationContext) (name : string) :
  first_missing context (inputs node) = Some name →
  invoke node context = Raise (ImageFileNotFoundException name).
Proof.
  unfold first_missing. intros Hmiss.
  destruct node; cbn [invoke inputs] in *;
    [ unfold LoadImageInvocation.invoke
    | unfold ShowImageInvocation.invoke
    | unfold ImageCropInvocation.invoke
    | unfold ImagePasteInvocation.invoke;
      destruct (ImagePasteInvocation.mask n) as [m|]
    | unfold MaskFromAlphaInvocation.invoke
    | unfold ImageMultiplyInvocation.invoke
    | unfold ImageChannelInvocation.invoke
    | unfold ImageConvertInvocation.invoke
    | unfold ImageBlurInvocation.invoke
    | unfold ImageResizeInvocation.invoke
    | unfold ImageScaleInvocation.invoke
    | unfold ImageLerpInvocation.invoke
    | unfold ImageInverseLerpInvocation.invoke
    | unfold ImageNSFWBlurInvocation.invoke
    | unfold ImageWatermarkInvocation.invoke ];
    cbn [app find] in Hmiss;
    repeat (case_bool_decide as Hk;
            [ inversion Hmiss; subst; clear Hmiss;
              rewrite (get_pil_image_missing _ _ Hk); reflexivity
            | destruct (get_pil_image_present _ _ Hk) as [? ->];
              rewrite bind_Ok; clear Hk ]);
    discriminate.
Qed.

Lemma missing_input_raises_witness :
  invoke (codec := Examples.codec) (backend := Examples.backend)
    (img_paste (Cases.paste 0 0 (Some {| image_name := "absent" |}))) Cases.context
  = Raise (ImageFileNotFoundException "absent").
Proof.
  apply (missing_input_raises (codec := Examples.codec) (backend := Examples.backend)
           (img_paste (Cases.paste 0 0 (Some {| image_name := "absent" |})))
           Cases.context "absent"); reflexivity.
Defined.

Lemma stored_insert (m : gmap string ImageRecord) (k : string) (r : ImageRecord) n s :
  stored {| images := <[k := r]> m; names_issued := n;
            graph_execution_state_id := s |} k = Some (pil_image r).
Proof. unfold stored. cbn [images]. by simplify_map_eq. Qed.

(** X11: MaskFromAlpha, ChannelExtract, Convert, Blur, Lerp, Inverse
    Lerp, NSFW blur, Watermark, Load and Show keep the size: the output
    and the stored result have the width and the height of the input
    image. *)
Theorem size_is_kept {codec : Image.Codec} {backend : Backend}
    (node : Invocation) (context context' : InvocationContext) (out : Output)
    (name : string) (im : Image.t) :
  keeps_size node = true →
  inputs node = [name] →
  stored context name = Some im →
  invoke node context = Ok (out, context') →
  out_width out = Image.width im
  ∧ out_height out = Image.height im
  ∧ ∃ res, stored context' (out_name out) = Some res
           ∧ Image.width res = Image.width im
           ∧ Image.height res = Image.height im.
Proof.
  intros Hkeeps Hname Him Hrun.
  destruct node; try discriminate; cbn [invoke inputs] in *;
    injection Hname as <-;
    unfold as_image in Hrun; apply bind_Ok_inv in Hrun as ([o c] & Hrun & Hout);
    inversion Hout; subst; clear Hout; cbn [fst snd];
    [ unfold LoadImageInvocation.invoke in Hrun
    | unfold ShowImageInvocation.invoke in Hrun
    | unfold MaskFromAlphaInvocation.invoke in Hrun
    | unfold ImageChannelInvocation.invoke in Hrun
    | unfold ImageConvertInvocation.invoke in Hrun
    | unfold ImageBlurInvocation.invoke in Hrun
    | unfold ImageLerpInvocation.invoke in Hrun
    | unfold ImageInverseLerpInvocation.invoke in Hrun
    | unfold ImageNSFWBlurInvocation.invoke in Hrun
    | unfold ImageWatermarkInvocation.invoke in Hrun ];
    rewrite (get_pil_image_stored _ _ _ Him), bind_Ok in Hrun;
    ran;
    repeat match goal with
      | H : (if ?b then _ else _) = Ok _ |- _ => destruct b eqn:?
      end;
    ran; sizes; subst;
    cbn [of_image_output of_mask_output out_name out_width out_height
         image_output mask_output ImageOutput.image ImageOutput.width
         ImageOutput.height MaskOutput.mask MaskOutput.width MaskOutput.height
         image_name ImageService.create fst snd dto_image_name dto_width dto_height
         Image.width Image.height] in *;
    (split; [congruence|]); (split; [congruence|]);
    first [ exists im; split; [exact Him|split; reflexivity]
          | eexists; split;
            [ apply (stored_create context _ INTERNAL) | split; congruence ]
          | eexists; split; [ apply stored_insert | split; reflexivity ] ].
Qed.

Lemma size_is_kept_witness :
  ∃ out context',
    invoke (codec := Examples.codec) (backend := Examples.backend)
      (img_chan (Cases.channel "rgba" chan_A)) Cases.context = Ok (out, context')
    ∧ out_width out = 2
    ∧ out_height out = 2
    ∧ ∃ res, stored context' (out_name out) = Some res
             ∧ Image.width res = 2
             ∧ Image.height res = 2.
Proof.
  eexists _, _. split; [reflexivity|].
  apply (size_is_kept (codec := Examples.codec) (backend := Examples.backend)
           (img_chan (Cases.channel "rgba" chan_A)) Cases.context _ _ "rgba" Examples.rgba);
    reflexivity.
Defined.

(** ** Resize *)



(** ** ChannelExtract *)





(** X14: on an image with an alpha band ("RGBA" or "LA"),
    ChannelExtract of "A" and MaskFromAlpha without inversion store
    the same image. *)
Theorem alpha_channel_is_mask (chan : ImageChannelInvocation.t)
    (msk : MaskFromAlphaInvocation.t) (context : InvocationContext) (im : Image.t) :
  stored context (image_name (ImageChannelInvocation.image chan)) = Some im →
  stored context (image_name (MaskFromAlphaInvocation.image msk)) = Some im →
  ImageChannelInvocation.channel chan = chan_A →
  MaskFromAlphaInvocation.invert msk = false →
  Image.mode im = Image.RGBA ∨ Image.mode im = Image.LA →
  ∃ out1 context1 out2 context2 res,
    ImageChannelInvocation.invoke chan context = Ok (out1, context1)
    ∧ MaskFromAlphaInvocation.invoke msk context = Ok (out2, context2)
    ∧ stored context1 (image_name (ImageOutput.image out1)) = Some res
    ∧ stored context2 (image_name (MaskOutput.mask out2)) = Some res.
Proof.
  intros Hc Hm Hchan Hinv Hmode.
  unfold ImageChannelInvocation.invoke, MaskFromAlphaInvocation.invoke.
  rewrite (get_pil_image_stored _ _ _ Hc), (get_pil_image_stored _ _ _ Hm), !bind_Ok.
  rewrite Hchan, Hinv.
  assert (∃ k, Image.getchannel im (channel_name chan_A) = Ok (Image.getband im k)
               ∧ MaskFromAlphaInvocation.last_band im = Ok (Image.getband im k))
    as (k & -> & ->).
  { unfold Image.getchannel, MaskFromAlphaInvocation.last_band, Image.split.
    destruct Hmode as [Hmode|Hmode]; rewrite Hmode;
      [by exists 3%nat|by exists 1%nat]. }
  rewrite !bind_Ok.
  eexists _, _, _, _, _. split; [reflexivity|]. split; [reflexivity|].
  split; apply (stored_create context _ INTERNAL).
Qed.

Lemma alpha_channel_is_mask_witness :
  ∃ out1 context1 out2 context2 res,
    ImageChannelInvocation.invoke (Cases.channel "rgba" chan_A) Cases.context
    = Ok (out1, context1)
    ∧ MaskFromAlphaInvocation.invoke (Cases.mask_of "rgba" false) Cases.context
      = Ok (out2, context2)
    ∧ stored context1 (image_name (ImageOutput.image out1)) = Some res
    ∧ stored context2 (image_name (MaskOutput.mask out2)) = Some res.
Proof.
  apply (alpha_channel_is_mask (Cases.channel "rgba" chan_A)
           (Cases.mask_of "rgba" false) Cases.context Examples.rgba);
    first [reflexivity | left; reflexivity].
Defined.

(** ** NSFW blur *)

(** X15: an image that the safety checker does not flag goes through
    the NSFW node unchanged: the image stored for the output is the
    input image; and an error of the checker is the error of the
    node. *)
Theorem nsfw_unflagged_is_unchanged {codec : Image.Codec} {backend : Backend}
    (self : ImageNSFWBlurInvocation.t) (context : InvocationContext) (im : Image.t) :
  stored context (image_name (ImageNSFWBlurInvocation.image self)) = Some im →
  (has_nsfw_concept im = Ok false →
   ∃ out context',
     ImageNSFWBlurInvocation.invoke self context = Ok (out, context')
     ∧ stored context' (image_name (ImageOutput.image out)) = Some im
     ∧ image_name (ImageOutput.image out) = ImageService.new_name context)
  ∧ (∀ e, has_nsfw_concept im = Raise e →
          ImageNSFWBlurInvocation.invoke self context = Raise e).
Proof.
  intros Him. unfold ImageNSFWBlurInvocation.invoke.
  rewrite (get_pil_image_stored _ _ _ Him), bind_Ok. split.
  - intros ->. rewrite !bind_Ok. eexists _, _. split; [reflexivity|].
    split; [apply (stored_create context im INTERNAL)|reflexivity].
  - by intros e ->.
Qed.

Lemma nsfw_unflagged_is_unchanged_witness :
  (has_nsfw_concept (Backend := Examples.backend) Examples.rgba = Ok false →
   ∃ out context',
     ImageNSFWBlurInvocation.invoke (codec := Examples.codec)
       (backend := Examples.backend) Cases.nsfw Cases.context = Ok (out, context')
     ∧ stored context' (image_name (ImageOutput.image out)) = Some Examples.rgba
     ∧ image_name (ImageOutput.image out) = "image_0")
  ∧ (∀ e, has_nsfw_concept (Backend := Examples.backend) Examples.rgba = Raise e →
          ImageNSFWBlurInvocation.invoke (codec := Examples.codec)
            (backend := Examples.backend) Cases.nsfw Cases.context = Raise e).
Proof.
  apply (nsfw_unflagged_is_unchanged (codec := Examples.codec)
           (backend := Examples.backend) Cases.nsfw Cases.context Examples.rgba);
    reflexivity.
Defined.

(** X16: a flagged "RGB" or "RGBA" image is replaced by its Gaussian
    blur of radius 32 with the half-size caution mark pasted at the top
    left through its own alpha band: outside the rectangle of the mark
    every pixel is the blurred one, inside it the blurred pixel and the
    mark's pixel are blended by the mark's alpha.  The size and the mode
    are those of the input. *)
Theorem nsfw_flagged_is_blurred {codec : Image.Codec} {backend : Backend}
    (self : ImageNSFWBlurInvocation.t) (context : InvocationContext)
    (im caution : Image.t) (blurred : Z → Z → Image.Pixel) :
  stored context (image_name (ImageNSFWBlurInvocation.image self)) = Some im →
  has_nsfw_concept im = Ok true →
  Image.ImagingBlur Image.GaussianBlur (binary_normalize Py.prec Py.emax 32 0 false) im
  = Some blurred →
  ImageNSFWBlurInvocation._get_caution_img = Ok caution →
  Image.mode caution = Image.RGBA →
  Image.mode im = Image.RGBA ∨ Image.mode im = Image.RGB →
  ∃ out context' res,
    ImageNSFWBlurInvocation.invoke self context = Ok (out, context')
    ∧ stored context' (image_name (ImageOutput.image out)) = Some res
    ∧ Image.mode res = Image.mode im
    ∧ Image.width res = Image.width im
    ∧ Image.height res = Image.height im
    ∧ ∀ X Y, 0 ≤ X < Image.width im → 0 ≤ Y < Image.height im →
        Image.pixel_at (Image.rows res) X Y
        = Some (if bool_decide (X < Image.width caution ∧ Y < Image.height caution)
                then
                  let mark := default [] (Image.pixel_at (Image.rows caution) X Y) in
                  zip_with (Image.blend_sample (Image.mode im) (Image.matte mark))
                    (blurred X Y) (Image.as_stored (Image.mode im) Image.RGBA mark)
                else blurred X Y).
Proof.
  intros Him Hflag Hblur Hcaution Hcm Hmode. unfold ImageNSFWBlurInvocation.invoke.
  rewrite (get_pil_image_stored _ _ _ Him), bind_Ok, Hflag, bind_Ok.
  unfold Image.filter. rewrite Hblur, bind_Ok, Hcaution, bind_Ok.
  set (blurry := {| Image.mode := Image.mode im; Image.rows := _ |}).
  assert (Image.paste blurry caution (0, 0) (Some caution)
          = Image.ImagingPaste blurry caution (Some caution) 0 0
              (0 + Image.width caution) (0 + Image.height caution)) as ->.
  { unfold Image.paste. cbn [Image.mode blurry]. rewrite Hcm.
    destruct Hmode as [-> | ->].
    - by rewrite decide_True, bind_Ok.
    - rewrite decide_False by done.
      rewrite bool_decide_eq_true_2 by (split; [done|by right]).
      by rewrite bind_Ok. }
  destruct (ImagingPaste_pixels blurry caution (Some caution) 0 0 blurred)
    as (res & -> & Hrm & Hrw & Hrh & Hpix).
  { cbn [Image.mode blurry]. rewrite Hcm. by destruct Hmode as [-> | ->]. }
  { repeat split; try done. by right; right. }
  { intros X Y HX HY. by apply pixel_at_tabulate. }
  rewrite bind_Ok. eexists _, _, res. split; [reflexivity|].
  split; [apply (stored_create context res INTERNAL)|].
  split; [done|]. split; [done|]. split; [done|].
  intros X Y HX HY. rewrite (Hpix X Y HX HY). cbn [Image.mode blurry]. cbv zeta.
  rewrite Hcm, !Z.sub_0_r. f_equal.
  repeat case_bool_decide; try lia; reflexivity.
Qed.

Lemma nsfw_flagged_is_blurred_witness :
  let caution :=
    {| Image.mode := Image.RGBA; Image.width := 1; Image.height := 1;
       Image.rows := [[[255; 200; 0; 255]]] |} in
  let blurred := λ x y, default [] (Image.pixel_at (Image.rows Examples.rgba) x y) in
  ∃ out context' res,
    ImageNSFWBlurInvocation.invoke (codec := Cases.codec_blur)
      (backend := Cases.backend_flagging) Cases.nsfw Cases.context = Ok (out, context')
    ∧ stored context' (image_name (ImageOutput.image out)) = Some res
    ∧ Image.mode res = Image.RGBA
    ∧ Image.width res = 2
    ∧ Image.height res = 2
    ∧ ∀ X Y, 0 ≤ X < 2 → 0 ≤ Y < 2 →
        Image.pixel_at (Image.rows res) X Y
        = Some (if bool_decide (X < 1 ∧ Y < 1)
                then
                  let mark := default [] (Image.pixel_at (Image.rows caution) X Y) in
                  zip_with (Image.blend_sample Image.RGBA (Image.matte mark))
                    (blurred X Y) (Image.as_stored Image.RGBA Image.RGBA mark)
                else blurred X Y).
Proof.
  apply (nsfw_flagged_is_blurred (codec := Cases.codec_blur)
           (backend := Cases.backend_flagging) Cases.nsfw Cases.context Examples.rgba
           {| Image.mode := Image.RGBA; Image.width := 1; Image.height := 1;
              Image.rows := [[[255; 200; 0; 255]]] |}
           (λ x y, default [] (Image.pixel_at (Image.rows Examples.rgba) x y)));
    first [reflexivity | left; reflexivity].
Defined.

(** ** Inverse Lerp and Lerp on 8-bit samples *)

(** The float32 computation of Inverse Lerp on a byte is the integer
    quotient: for [0 ≤ n ≤ 255] and [1 ≤ d ≤ 255],
    [uint8(min(n / d, 1) * 255) = ⌊255 · min(n, d) / d⌋]. *)
Lemma quotient_floor (n d : Z) :
  0 ≤ n ≤ 255 → 1 ≤ d ≤ 255 →
  numpy.uint8 (numpy.multiply
     (numpy.minimum (numpy.divide (numpy.float32_of_int n) (numpy.float32_of_int d))
        (numpy.float32_of_int 1))
     (numpy.float32_of_int 255))
  = (255 * Z.min n d) `div` d.
Proof.
  intros Hn Hd. apply Z.eqb_eq. revert n d Hn Hd.
  apply (enumerate2 (λ n d, numpy.uint8 (numpy.multiply
     (numpy.minimum (numpy.divide (numpy.float32_of_int n) (numpy.float32_of_int d))
        (numpy.float32_of_int 1))
     (numpy.float32_of_int 255)) =? (255 * Z.min n d) `div` d) 0 255 1 255).
  vm_compute. reflexivity.
Qed.

(** One sample of Inverse Lerp, converted to [uint8]. *)
Lemma ilerp_floor (self : ImageInverseLerpInvocation.t) (D : Py.float) (v : Z) :
  ImageInverseLerpInvocation.validate self = true →
  Py.float_of_int (ImageInverseLerpInvocation.max self - ImageInverseLerpInvocation.min self)
  = Ok D →
  ImageInverseLerpInvocation.min self < ImageInverseLerpInvocation.max self →
  0 ≤ v ≤ 255 →
  numpy.uint8 (ImageInverseLerpInvocation.ilerp self D (numpy.float32_of_int v))
  = (255 * Z.min (Z.max (v - ImageInverseLerpInvocation.min self) 0)
             (ImageInverseLerpInvocation.max self - ImageInverseLerpInvocation.min self))
    `div` (ImageInverseLerpInvocation.max self - ImageInverseLerpInvocation.min self).
Proof.
  intros Hval HD Hlt Hrange.
  rewrite (ilerp_byte self D v Hval HD Hrange).
  unfold ImageInverseLerpInvocation.validate in Hval.
  apply quotient_floor; lia.
Qed.

(** X17: with [min < max], Inverse Lerp maps an 8-bit sample [v] to
    [⌊255 · clamp(v - min, 0, max - min) / (max - min)⌋]: the float32
    arithmetic of the node and the conversion to [uint8] give exactly
    this integer, for every sample and all bounds. *)
Theorem inverse_lerp_is_integer_quotient (self : ImageInverseLerpInvocation.t)
    (context : InvocationContext) (im : Image.t) :
  stored context (image_name (ImageInverseLerpInvocation.image self)) = Some im →
  ImageInverseLerpInvocation.validate self = true →
  ImageInverseLerpInvocation.min self < ImageInverseLerpInvocation.max self →
  Image.is_uint8 (Image.mode im) = true →
  ∃ out context' res,
    ImageInverseLerpInvocation.invoke self context = Ok (out, context')
    ∧ stored context' (image_name (ImageOutput.image out)) = Some res
    ∧ ∀ x y k v,
        sample_at im x y k = Some v →
        0 ≤ v ≤ 255 →
        let span := ImageInverseLerpInvocation.max self
                    - ImageInverseLerpInvocation.min self in
        sample_at res x y k
        = Some ((255 * Z.min (Z.max (v - ImageInverseLerpInvocation.min self) 0) span)
                `div` span).
Proof.
  intros Him Hval Hlt Hmode.
  assert (Hval' := Hval). unfold ImageInverseLerpInvocation.validate in Hval'.
  destruct (divisor_small (ImageInverseLerpInvocation.max self
                           - ImageInverseLerpInvocation.min self))
    as (D & HD & _); [lia|].
  rewrite (inverse_lerp_invoke self context im D Him HD). cbv zeta.
  eexists _, _, _. split; [reflexivity|]. split; [apply stored_create|].
  intros x y k v Hv Hrange.
  erewrite sample_at_map; [|reflexivity|exact Hv]. f_equal.
  rewrite element_uint8 by done.
  by apply ilerp_floor.
Qed.

Lemma inverse_lerp_is_integer_quotient_witness :
  ∃ out context' res,
    ImageInverseLerpInvocation.invoke (Cases.ilerp 100 150) Cases.context
    = Ok (out, context')
    ∧ stored context' (image_name (ImageOutput.image out)) = Some res
    ∧ ∀ x y k v,
        sample_at Examples.grey x y k = Some v →
        0 ≤ v ≤ 255 →
        let span := 150 - 100 in
        sample_at res x y k
        = Some ((255 * Z.min (Z.max (v - 100) 0) span) `div` span).
Proof.
  apply (inverse_lerp_is_integer_quotient (Cases.ilerp 100 150) Cases.context
           Examples.grey); [reflexivity | reflexivity | simpl; lia | reflexivity].
Defined.

(** X18: with the default bounds, [min = 0] and [max = 255], Inverse
    Lerp leaves every 8-bit sample as it is. *)
Theorem inverse_lerp_default_is_identity (self : ImageInverseLerpInvocation.t)
    (context : InvocationContext) (im : Image.t) :
  stored context (image_name (ImageInverseLerpInvocation.image self)) = Some im →
  ImageInverseLerpInvocation.min self = 0 →
  ImageInverseLerpInvocation.max self = 255 →
  Image.is_uint8 (Image.mode im) = true →
  ∃ out context' res,
    ImageInverseLerpInvocation.invoke self context = Ok (out, context')
    ∧ stored context' (image_name (ImageOutput.image out)) = Some res
    ∧ ∀ x y k v,
        sample_at im x y k = Some v → 0 ≤ v ≤ 255 →
        sample_at res x y k = Some v.
Proof.
  intros Him Hmin Hmax Hmode.
  assert (ImageInverseLerpInvocation.validate self = true) as Hval.
  { unfold ImageInverseLerpInvocation.validate. by rewrite Hmin, Hmax. }
  destruct (divisor_small (ImageInverseLerpInvocation.max self
                           - ImageInverseLerpInvocation.min self))
    as (D & HD & _); [lia|].
  rewrite (inverse_lerp_invoke self context im D Him HD). cbv zeta.
  eexists _, _, _. split; [reflexivity|]. split; [apply stored_create|].
  intros x y k v Hv Hrange.
  erewrite sample_at_map; [|reflexivity|exact Hv]. f_equal.
  rewrite element_uint8 by done.
  rewrite (ilerp_floor self D v Hval HD) by lia.
  rewrite Hmin, Hmax.
  replace (Z.min (Z.max (v - 0) 0) (255 - 0)) with v by lia.
  replace (255 - 0) with 255 by lia. rewrite Z.mul_comm. apply Z.div_mul. lia.
Qed.

Lemma inverse_lerp_default_is_identity_witness :
  ∃ out context' res,
    ImageInverseLerpInvocation.invoke (Cases.ilerp 0 255) Cases.context
    = Ok (out, context')
    ∧ stored context' (image_name (ImageOutput.image out)) = Some res
    ∧ ∀ x y k v,
        sample_at Examples.grey x y k = Some v → 0 ≤ v ≤ 255 →
        sample_at res x y k = Some v.
Proof.
  apply (inverse_lerp_default_is_identity (Cases.ilerp 0 255) Cases.context
           Examples.grey); reflexivity.
Defined.

(** A zero, of either sign, added to the float32 of a byte converts
    back to the byte. *)
Lemma zero_plus_byte (s : bool) (m : Z) :
  0 ≤ m ≤ 255 →
  numpy.uint8 (numpy.add (S754_zero s) (numpy.float32_of_int m)) = m.
Proof.
  intros Hm. apply Z.eqb_eq. revert m Hm.
  destruct s;
    [ apply (enumerate1 (λ m, numpy.uint8
               (numpy.add (S754_zero true) (numpy.float32_of_int m)) =? m) 0 255)
    | apply (enumerate1 (λ m, numpy.uint8
               (numpy.add (S754_zero false) (numpy.float32_of_int m)) =? m) 0 255) ];
    vm_compute; reflexivity.
Qed.

Lemma is_zero_spec (x : numpy.float32) : is_zero x = true → ∃ s, x = S754_zero s.
Proof. destruct x; try discriminate. by eexists. Qed.

(** [0 / 255 * d] is a zero for every difference [d] of two bytes. *)
Lemma black_times_span (d : Z) :
  -255 ≤ d ≤ 255 →
  is_zero (numpy.multiply
             (numpy.divide (numpy.float32_of_int 0) (numpy.float32_of_int 255))
             (numpy.float32_of_int d)) = true.
Proof.
  revert d.
  apply (enumerate1 (λ d, is_zero (numpy.multiply
           (numpy.divide (numpy.float32_of_int 0) (numpy.float32_of_int 255))
           (numpy.float32_of_int d))) (-255) 255).
  vm_compute. reflexivity.
Qed.

(** [v / 255 * 0] is a zero for every byte [v]. *)
Lemma byte_times_zero (v : Z) :
  0 ≤ v ≤ 255 →
  is_zero (numpy.multiply
             (numpy.divide (numpy.float32_of_int v) (numpy.float32_of_int 255))
             (numpy.float32_of_int 0)) = true.
Proof.
  revert v.
  apply (enumerate1 (λ v, is_zero (numpy.multiply
           (numpy.divide (numpy.float32_of_int v) (numpy.float32_of_int 255))
           (numpy.float32_of_int 0))) 0 255).
  vm_compute. reflexivity.
Qed.

(** With the bounds 0 and 255 the formula of Lerp is [v + 255], which
    the conversion to [uint8] wraps. *)
Lemma lerp_default_byte (v : Z) :
  0 ≤ v ≤ 255 →
  numpy.uint8
    (numpy.add
       (numpy.multiply (numpy.divide (numpy.float32_of_int v) (numpy.float32_of_int 255))
          (numpy.float32_of_int (255 - 0)))
       (numpy.float32_of_int 255))
  = (v + 255) `mod` 256.
Proof.
  intros Hv. apply Z.eqb_eq. revert v Hv.
  apply (enumerate1 (λ v, numpy.uint8
    (numpy.add
       (numpy.multiply (numpy.divide (numpy.float32_of_int v) (numpy.float32_of_int 255))
          (numpy.float32_of_int (255 - 0)))
       (numpy.float32_of_int 255)) =? (v + 255) `mod` 256) 0 255).
  vm_compute. reflexivity.
Qed.

(** X19: Lerp sends a black sample to [max], whatever [min] is: the
    formula of the node is [v / 255 * (max - min) + max], so its value
    at 0 is [max] and not [min]. *)
Theorem lerp_maps_black_to_max (self : ImageLerpInvocation.t)
    (context : InvocationContext) (im : Image.t) :
  stored context (image_name (ImageLerpInvocation.image self)) = Some im →
  ImageLerpInvocation.validate self = true →
  Image.is_uint8 (Image.mode im) = true →
  ∃ out context' res,
    ImageLerpInvocation.invoke self context = Ok (out, context')
    ∧ stored context' (image_name (ImageOutput.image out)) = Some res
    ∧ ∀ x y k,
        sample_at im x y k = Some 0 →
        sample_at res x y k = Some (ImageLerpInvocation.max self).
Proof.
  intros Him Hval Hmode. unfold ImageLerpInvocation.validate in Hval.
  rewrite (lerp_invoke self context im Him). cbv zeta.
  eexists _, _, _. split; [reflexivity|]. split; [apply stored_create|].
  intros x y k Hv.
  erewrite sample_at_map; [|reflexivity|exact Hv]. f_equal.
  rewrite element_uint8 by done. unfold ImageLerpInvocation.lerp.
  destruct (is_zero_spec _ (black_times_span
              (ImageLerpInvocation.max self - ImageLerpInvocation.min self)
              ltac:(lia))) as [s ->].
  apply zero_plus_byte. lia.
Qed.

Lemma lerp_maps_black_to_max_witness :
  ∃ out context' res,
    ImageLerpInvocation.invoke (Cases.lerp 10 20) Cases.context = Ok (out, context')
    ∧ stored context' (image_name (ImageOutput.image out)) = Some res
    ∧ ∀ x y k,
        sample_at Examples.grey x y k = Some 0 →
        sample_at res x y k = Some 20.
Proof.
  apply (lerp_maps_black_to_max (Cases.lerp 10 20) Cases.context Examples.grey);
    reflexivity.
Defined.

(** X20: Lerp with [min = max] gives a flat image: every 8-bit
    sample becomes [max]. *)
Theorem lerp_equal_bounds_is_flat (self : ImageLerpInvocation.t)
    (context : InvocationContext) (im : Image.t) :
  stored context (image_name (ImageLerpInvocation.image self)) = Some im →
  ImageLerpInvocation.validate self = true →
  ImageLerpInvocation.min self = ImageLerpInvocation.max self →
  Image.is_uint8 (Image.mode im) = true →
  ∃ out context' res,
    ImageLerpInvocation.invoke self context = Ok (out, context')
    ∧ stored context' (image_name (ImageOutput.image out)) = Some res
    ∧ ∀ x y k v,
        sample_at im x y k = Some v → 0 ≤ v ≤ 255 →
        sample_at res x y k = Some (ImageLerpInvocation.max self).
Proof.
  intros Him Hval Heq Hmode. unfold ImageLerpInvocation.validate in Hval.
  rewrite (lerp_invoke self context im Him). cbv zeta.
  eexists _, _, _. split; [reflexivity|]. split; [apply stored_create|].
  intros x y k v Hv Hrange.
  erewrite sample_at_map; [|reflexivity|exact Hv]. f_equal.
  rewrite element_uint8 by done. unfold ImageLerpInvocation.lerp.
  rewrite Heq, Z.sub_diag.
  destruct (is_zero_spec _ (byte_times_zero v Hrange)) as [s ->].
  apply zero_plus_byte. lia.
Qed.

Lemma lerp_equal_bounds_is_flat_witness :
  ∃ out context' res,
    ImageLerpInvocation.invoke (Cases.lerp 70 70) Cases.context = Ok (out, context')
    ∧ stored context' (image_name (ImageOutput.image out)) = Some res
    ∧ ∀ x y k v,
        sample_at Examples.grey x y k = Some v → 0 ≤ v ≤ 255 →
        sample_at res x y k = Some 70.
Proof.
  apply (lerp_equal_bounds_is_flat (Cases.lerp 70 70) Cases.context Examples.grey);
    reflexivity.
Defined.

(** X21: with the default bounds, [min = 0] and [max = 255], Lerp
    does not leave the image as it is: the value [v + 255] wraps in the
    conversion to [uint8], so every sample [v ≥ 1] becomes [v - 1] and 0
    becomes 255. *)
Theorem lerp_default_shifts_by_one (self : ImageLerpInvocation.t)
    (context : InvocationContext) (im : Image.t) :
  stored context (image_name (ImageLerpInvocation.image self)) = Some im →
  ImageLerpInvocation.min self = 0 →
  ImageLerpInvocation.max self = 255 →
  Image.is_uint8 (Image.mode im) = true →
  ∃ out context' res,
    ImageLerpInvocation.invoke self context = Ok (out, context')
    ∧ stored context' (image_name (ImageOutput.image out)) = Some res
    ∧ ∀ x y k v,
        sample_at im x y k = Some v → 0 ≤ v ≤ 255 →
        sample_at res x y k = Some (if v =? 0 then 255 else v - 1).
Proof.
  intros Him Hmin Hmax Hmode.
  rewrite (lerp_invoke self context im Him). cbv zeta.
  eexists _, _, _. split; [reflexivity|]. split; [apply stored_create|].
  intros x y k v Hv Hrange.
  erewrite sample_at_map; [|reflexivity|exact Hv]. f_equal.
  rewrite element_uint8 by done. unfold ImageLerpInvocation.lerp.
  rewrite Hmin, Hmax, (lerp_default_byte v Hrange).
  destruct (Z.eqb_spec v 0) as [->|Hne]; [reflexivity|].
  replace (v + 255) with (v - 1 + 1 * 256) by lia.
  rewrite Z.mod_add by lia. apply Z.mod_small. lia.
Qed.

Lemma lerp_default_shifts_by_one_witness :
  ∃ out context' res,
    ImageLerpInvocation.invoke (Cases.lerp 0 255) Cases.context = Ok (out, context')
    ∧ stored context' (image_name (ImageOutput.image out)) = Some res
    ∧ ∀ x y k v,
        sample_at Examples.grey x y k = Some v → 0 ≤ v ≤ 255 →
        sample_at res x y k = Some (if v =? 0 then 255 else v - 1).
Proof.
  apply (lerp_default_shifts_by_one (Cases.lerp 0 255) Cases.context Examples.grey);
    reflexivity.
Defined.

(** ** Multiply *)

(** X22: Multiply is symmetric in its operands, up to the mode: with
    the two images exchanged the result has the same size and the same
    pixels (its mode is that of the first operand). *)
Theorem multiply_is_symmetric (one other : ImageMultiplyInvocation.t)
    (context : InvocationContext) (im1 im2 : Image.t) :
  stored context (image_name (ImageMultiplyInvocation.image1 one)) = Some im1 →
  stored context (image_name (ImageMultiplyInvocation.image2 one)) = Some im2 →
  ImageMultiplyInvocation.image1 other = ImageMultiplyInvocation.image2 one →
  ImageMultiplyInvocation.image2 other = ImageMultiplyInvocation.image1 one →
  Image.is_uint8 (Image.mode im1) = true →
  Image.is_uint8 (Image.mode im2) = true →
  Image.bands (Image.mode im1) = Image.bands (Image.mode im2) →
  ∃ out1 context1 res1 out2 context2 res2,
    ImageMultiplyInvocation.invoke one context = Ok (out1, context1)
    ∧ ImageMultiplyInvocation.invoke other context = Ok (out2, context2)
    ∧ stored context1 (image_name (ImageOutput.image out1)) = Some res1
    ∧ stored context2 (image_name (ImageOutput.image out2)) = Some res2
    ∧ Image.mode res1 = Image.mode im1
    ∧ Image.mode res2 = Image.mode im2
    ∧ Image.size res1 = Image.size res2
    ∧ ∀ x y, 0 ≤ x < Image.width res1 → 0 ≤ y < Image.height res1 →
        Image.pixel_at (Image.rows res1) x y = Image.pixel_at (Image.rows res2) x y.
Proof.
  intros H1 H2 Ho1 Ho2 Hu1 Hu2 Hb.
  rewrite (multiply_invoke one context im1 im2) by done.
  rewrite (multiply_invoke other context im2 im1) by (done || congruence).
  cbv zeta. eexists _, _, _, _, _, _.
  split; [reflexivity|]. split; [reflexivity|].
  split; [apply stored_create|]. split; [apply stored_create|].
  split; [reflexivity|]. split; [reflexivity|].
  unfold Image.size. cbn [Image.width Image.height Image.rows].
  split; [f_equal; lia|].
  intros x y Hx Hy. rewrite !pixel_at_tabulate by lia. f_equal.
  generalize (default [] (Image.pixel_at (Image.rows im1) x y))
             (default [] (Image.pixel_at (Image.rows im2) x y)).
  intros p. induction p as [|a p IH]; intros [|b q]; cbn [zip_with]; try done.
  by rewrite IH, (Z.mul_comm a b).
Qed.

Lemma multiply_is_symmetric_witness :
  ∃ out1 context1 res1 out2 context2 res2,
    ImageMultiplyInvocation.invoke (Cases.multiply "grey" "dot") Cases.context
    = Ok (out1, context1)
    ∧ ImageMultiplyInvocation.invoke (Cases.multiply "dot" "grey") Cases.context
      = Ok (out2, context2)
    ∧ stored context1 (image_name (ImageOutput.image out1)) = Some res1
    ∧ stored context2 (image_name (ImageOutput.image out2)) = Some res2
    ∧ Image.mode res1 = Image.L
    ∧ Image.mode res2 = Image.L
    ∧ Image.size res1 = Image.size res2
    ∧ ∀ x y, 0 ≤ x < Image.width res1 → 0 ≤ y < Image.height res1 →
        Image.pixel_at (Image.rows res1) x y = Image.pixel_at (Image.rows res2) x y.
Proof.
  apply (multiply_is_symmetric (Cases.multiply "grey" "dot")
           (Cases.multiply "dot" "grey") Cases.context Examples.grey Examples.dot);
    reflexivity.
Defined.

(** X23: Multiply fails, and creates nothing, when an operand has a
    32-bit band (mode "I" or "F") or the operands differ in their
    number of bands, "L" against "RGB" say. *)
Theorem multiply_rejects_unlike_modes (self : ImageMultiplyInvocation.t)
    (context : InvocationContext) (im1 im2 : Image.t) :
  stored context (image_name (ImageMultiplyInvocation.image1 self)) = Some im1 →
  stored context (image_name (ImageMultiplyInvocation.image2 self)) = Some im2 →
  Image.is_uint8 (Image.mode im1) = false
  ∨ Image.is_uint8 (Image.mode im2) = false
  ∨ Image.bands (Image.mode im1) ≠ Image.bands (Image.mode im2) →
  ∃ message, ImageMultiplyInvocation.invoke self context = Raise (ValueError message).
Proof.
  intros H1 H2 Hbad. unfold ImageMultiplyInvocation.invoke.
  rewrite (get_pil_image_stored _ _ _ H1), (get_pil_image_stored _ _ _ H2), !bind_Ok.
  unfold ImageChops.multiply.
  destruct (Image.is_uint8 (Image.mode im1)) eqn:Hu1; cbn [negb];
    [|by eexists].
  destruct (Image.is_uint8 (Image.mode im2)) eqn:Hu2; cbn [negb orb];
    [|by eexists].
  destruct (Nat.eqb_spec (Image.bands (Image.mode im1)) (Image.bands (Image.mode im2)))
    as [Heq|Hne]; cbn [negb]; [|by eexists].
  destruct Hbad as [?|[?|?]]; done.
Qed.

Lemma multiply_rejects_unlike_modes_witness :
  ∃ message,
    ImageMultiplyInvocation.invoke (Cases.multiply "grey" "rgb") Cases.context
    = Raise (ValueError message).
Proof.
  apply (multiply_rejects_unlike_modes (Cases.multiply "grey" "rgb") Cases.context
           Examples.grey Examples.rgb);
    first [reflexivity | right; right; vm_compute; discriminate].
Defined.

(** ** Scale by the default factor *)




(** ** MaskFromAlpha on an image of one band *)

(** X25: an image with a single band has no alpha band to take, and
    MaskFromAlpha uses the image itself: without inversion the stored
    mask is the input image, and with inversion a mode "I" or "F" image
    makes the node fail in [ImageOps.invert]. *)
Theorem mask_of_single_band (self : MaskFromAlphaInvocation.t)
    (context : InvocationContext) (im : Image.t) :
  stored context (image_name (MaskFromAlphaInvocation.image self)) = Some im →
  Image.bands (Image.mode im) = 1%nat →
  (MaskFromAlphaInvocation.invert self = false →
   ∃ out context',
     MaskFromAlphaInvocation.invoke self context = Ok (out, context')
     ∧ stored context' (image_name (MaskOutput.mask out)) = Some im)
  ∧ (MaskFromAlphaInvocation.invert self = true →
     Image.is_uint8 (Image.mode im) = false →
     MaskFromAlphaInvocation.invoke self context
     = Raise (OSError "not supported for this image mode")).
Proof.
  intros Him Hone. unfold MaskFromAlphaInvocation.invoke.
  rewrite (get_pil_image_stored _ _ _ Him), bind_Ok.
  unfold MaskFromAlphaInvocation.last_band, Image.split. rewrite Hone.
  cbn [Nat.eqb last]. rewrite bind_Ok. split.
  - intros ->. rewrite bind_Ok. eexists _, _. split; [reflexivity|].
    apply (stored_create context im INTERNAL).
  - intros -> Hwide. unfold ImageOps.invert.
    by destruct (Image.mode im).
Qed.

Lemma mask_of_single_band_witness :
  (false = false →
   ∃ out context',
     MaskFromAlphaInvocation.invoke (Cases.mask_of "grey" false) Cases.context
     = Ok (out, context')
     ∧ stored context' (image_name (MaskOutput.mask out)) = Some Examples.grey)
  ∧ (false = true →
     Image.is_uint8 Image.L = false →
     MaskFromAlphaInvocation.invoke (Cases.mask_of "grey" false) Cases.context
     = Raise (OSError "not supported for this image mode")).
Proof.
  apply (mask_of_single_band (Cases.mask_of "grey" false) Cases.context Examples.grey);
    reflexivity.
Defined.
